(** * netbox-containerlab: topology synthesis, failure set and tool lifecycle

    A shallow embedding of [clab_generator.py] and [cleanup.py].

    Conventions of the model.
    - A Python [str] is a Rocq [string]; device names, interface names and
      CLI output are taken to be ASCII text, so [str.lower] and the
      [re.IGNORECASE] flag only fold the letters A-Z.
    - A Python [dict] that the code iterates over is an association list in
      insertion order; the global [unreachable_devices] set and the local
      [processed_links] set, which are only tested for membership, are
      [gset]s.
    - The iteration order of the set [netbox_device_names] is not fixed by
      Python: it is a parameter [set_order] of the synthesis.
    - Device sessions and the [containerlab] subprocess are external: each
      operation takes the outcome of the external call as an argument. *)

From Stdlib Require Import Ascii String.
From stdpp Require Import base decidable option list sets gmap strings.

(** ** Python string methods used by the two programs *)
Module PyStr.

Definition lower_char (c : ascii) : ascii :=
  let n := nat_of_ascii c in
  if (65 <=? n) && (n <=? 90) then ascii_of_nat (n + 32) else c.

(** [s.lower()] *)
Fixpoint lower (s : string) : string :=
  match s with
  | EmptyString => EmptyString
  | String c rest => String (lower_char c) (lower rest)
  end.

(** [s.startswith(p)] *)
Definition startswith (s p : string) : bool := String.prefix p s.

(** [s.endswith(p)] *)
Definition endswith (s p : string) : bool :=
  String.prefix (String.rev p) (String.rev s).

(** [sub in s] *)
Fixpoint contains (sub s : string) : bool :=
  match s with
  | EmptyString => String.prefix sub EmptyString
  | String _ rest => String.prefix sub s || contains sub rest
  end.

Fixpoint drop_chars (n : nat) (s : string) : string :=
  match n, s with
  | S n', String _ rest => drop_chars n' rest
  | _, _ => s
  end.

(** [s.replace(old, new)] for a non-empty [old] (the source only replaces
    ['Ethernet'] and ['/']): scan from the left, at each position either
    consume a whole occurrence of [old] or copy one character. Every step
    consumes at least one character, so [String.length s] steps suffice
    ([replace_from_enough]). *)
Fixpoint replace_from (fuel : nat) (old new s : string) : string :=
  match fuel with
  | 0 => s
  | S fuel' =>
      match s with
      | EmptyString => EmptyString
      | String c rest =>
          if String.prefix old s
          then new +:+ replace_from fuel' old new (drop_chars (String.length old) s)
          else String c (replace_from fuel' old new rest)
      end
  end.

Definition replace (old new s : string) : string :=
  replace_from (String.length s) old new s.

(** [s.split(sep)] for a one-character separator. *)
Fixpoint split (sep : ascii) (s : string) : list string :=
  match s with
  | EmptyString => [EmptyString]
  | String c rest =>
      if decide (c = sep) then EmptyString :: split sep rest
      else match split sep rest with
           | h :: t => String c h :: t
           | [] => [String c EmptyString]
           end
  end.

(** ASCII characters for which [str.isspace] holds. *)
Definition is_space (c : ascii) : bool :=
  let n := nat_of_ascii c in
  ((9 <=? n) && (n <=? 13)) || ((28 <=? n) && (n <=? 32)).

Fixpoint lstrip (s : string) : string :=
  match s with
  | EmptyString => EmptyString
  | String c rest => if is_space c then lstrip rest else s
  end.

Fixpoint rstrip (s : string) : string :=
  match s with
  | EmptyString => EmptyString
  | String c rest =>
      match rstrip rest with
      | EmptyString => if is_space c then EmptyString else String c EmptyString
      | r => String c r
      end
  end.

(** [s.strip()] *)
Definition strip (s : string) : string := rstrip (lstrip s).

(** ASCII line boundaries of [str.splitlines]. *)
Definition is_linebreak (c : ascii) : bool :=
  let n := nat_of_ascii c in
  ((10 <=? n) && (n <=? 13)) || ((28 <=? n) && (n <=? 30)).

(** [s.splitlines()]: a CR LF pair is one boundary, and a final boundary
    does not open a further, empty line. *)
Fixpoint splitlines (s : string) : list string :=
  match s with
  | EmptyString => []
  | String c rest =>
      if is_linebreak c then
        match rest with
        | String c' rest' =>
            if bool_decide (c = "013"%char) && bool_decide (c' = "010"%char)
            then EmptyString :: splitlines rest'
            else EmptyString :: splitlines rest
        | EmptyString => [EmptyString]
        end
      else match splitlines rest with
           | h :: t => String c h :: t
           | [] => [String c EmptyString]
           end
  end.

(** [re.search(pat, s, re.IGNORECASE)] for a pattern that is literal,
    lower-case text. *)
Definition search_ignorecase (pat s : string) : bool := contains pat (lower s).

(** [sorted((a, b))] as a pair: the sort is stable, so the order changes
    only when [b < a]. *)
Definition sorted2 (p : string * string) : string * string :=
  if String.ltb p.2 p.1 then (p.2, p.1) else p.

(** [os.path.join(a, b)] (POSIX). *)
Definition path_join (a b : string) : string :=
  if startswith b "/" then b
  else if bool_decide (a = EmptyString) || endswith a "/" then a +:+ b
  else a +:+ "/" +:+ b.

Definition newline : string := String "010"%char EmptyString.

End PyStr.

(** ** clab_generator.py *)
Module Generator.
Import PyStr.

(** A NetBox device record, as far as the program reads it: [device.name]
    and [device.primary_ip.address] ([None] when there is no primary IP). *)
Record Device := { name : string; primary_ip : option string }.

(** One entry of a NAPALM LLDP neighbor list. *)
Record NeighborInfo := { hostname : string; port : string }.

(** A device's LLDP answer: local interface -> neighbor list. *)
Abbreviation NeighborsDict := (list (string * list NeighborInfo)).
(** [links_data]: device name -> LLDP answer. *)
Abbreviation LinksData := (list (string * NeighborsDict)).

(** *** Process state: the failure set and the files written *)

Record World := {
  unreachable_devices : gset string;
  files : gmap string string
}.

Definition mark_unreachable (n : string) (w : World) : World :=
  {| unreachable_devices := {[ n ]} ∪ unreachable_devices w;
     files := files w |}.

(** [with open(path, 'w') as f: f.write(content)] *)
Definition write_file (path content : string) (w : World) : World :=
  {| unreachable_devices := unreachable_devices w;
     files := <[ path := content ]> (files w) |}.

Inductive Exn :=
  | AttributeError
  | FileNotFoundError
  | CalledProcessError (stderr : string)
  | OtherException (msg : string).

Inductive Result (A : Type) :=
  | Returned (a : A)
  | Raised (e : Exn).
Arguments Returned {A} a.
Arguments Raised {A} e.

(** [test_device_connectivity]; [session_ok] says whether [open()] and
    [close()] on the session went through. *)
Definition test_device_connectivity (device : Device) (session_ok : bool)
    (w : World) : bool * World :=
  match primary_ip device with
  | None => (false, mark_unreachable (name device) w)
  | Some _ =>
      if session_ok then (true, w)
      else (false, mark_unreachable (name device) w)
  end.

(** [get_device_config]; [fetched] is the running configuration, [None]
    when a statement of the [try] block raised. Without a primary IP the
    attribute access on line 93 raises before the [try]. *)
Definition get_device_config (device : Device) (configs_dir : string)
    (fetched : option string) (w : World) : Result unit * World :=
  if bool_decide (name device ∈ unreachable_devices w) then (Returned (), w)
  else match primary_ip device with
       | None => (Raised AttributeError, w)
       | Some _ =>
           match fetched with
           | Some config_data =>
               (Returned (),
                write_file (path_join configs_dir (name device +:+ ".cfg"))
                  config_data w)
           | None => (Returned (), mark_unreachable (name device) w)
           end
       end.

(** [line.split(':')[1].strip()]; [None] stands for the [IndexError]. *)
Definition field_value (line : string) : option string :=
  strip <$> (split ":" line !! 1).

(** One turn of the loop over the lines of [show version] (lines 122-123),
    on the pair [(serial_number, system_mac)]. *)
Definition scan_line (acc : option (string * string)) (line : string)
    : option (string * string) :=
  ids ← acc;
  serial_number ←
    (if search_ignorecase "serial number" line then field_value line
     else Some ids.1);
  system_mac ←
    (if search_ignorecase "system mac address" line then field_value line
     else Some ids.2);
  Some (serial_number, system_mac).

Definition scan_version (version_output : string) : option (string * string) :=
  foldl scan_line (Some ("UNKNOWN", "UNKNOWN")) (splitlines version_output).

Definition sn_content (serial_number system_mac : string) : string :=
  "SERIALNUMBER=" +:+ serial_number +:+ newline
  +:+ "SYSTEMMACADDR=" +:+ system_mac +:+ newline.

(** [get_device_info]; [version] is the text of [show version], [None]
    when opening the session or the command raised. *)
Definition get_device_info (device : Device) (sn_dir : string)
    (version : option string) (w : World) : Result unit * World :=
  if bool_decide (name device ∈ unreachable_devices w) then (Returned (), w)
  else match primary_ip device with
       | None => (Raised AttributeError, w)
       | Some _ =>
           match version ≫= scan_version with
           | Some (serial_number, system_mac) =>
               (Returned (),
                write_file (path_join sn_dir (name device +:+ ".txt"))
                  (sn_content serial_number system_mac) w)
           | None => (Returned (), mark_unreachable (name device) w)
           end
       end.

(** [get_lldp_neighbors_napalm]; [lldp] is the device's answer, [None]
    when the session raised. *)
Definition get_lldp_neighbors_napalm (device_name : string)
    (lldp : option NeighborsDict) (w : World)
    : option NeighborsDict * World :=
  if bool_decide (device_name ∈ unreachable_devices w) then (None, w)
  else match lldp with
       | Some lldp_neighbors => (Some lldp_neighbors, w)
       | None => (None, mark_unreachable device_name w)
       end.

(** *** The polling stages as a schedule of per-device operations

    The worker pools run one call per device; a schedule lists the calls in
    the order in which they take effect, each with the outcome of its
    external session. [FetchLldp] is the task that [main] submits for a
    device with a primary IP (lines 316-325), together with the fan-in
    [if lldp_data: all_links[device_name] = lldp_data]. *)
Inductive Op :=
  | Probe (device : Device) (session_ok : bool)
  | FetchConfig (device : Device) (configs_dir : string) (fetched : option string)
  | FetchInfo (device : Device) (sn_dir : string) (version : option string)
  | FetchLldp (device : Device) (lldp : option NeighborsDict).

Definition op_device (o : Op) : Device :=
  match o with
  | Probe d _ | FetchConfig d _ _ | FetchInfo d _ _ | FetchLldp d _ => d
  end.

Record RunState := {
  world : World;
  all_links : LinksData
}.

(** [all_links[device_name] = lldp_data] on an insertion-ordered dict. *)
Fixpoint dict_set (k : string) (v : NeighborsDict) (d : LinksData) : LinksData :=
  match d with
  | [] => [(k, v)]
  | (k', v') :: rest =>
      if bool_decide (k' = k) then (k, v) :: rest
      else (k', v') :: dict_set k v rest
  end.

Definition step (st : RunState) (o : Op) : RunState :=
  match o with
  | Probe d ok =>
      {| world := (test_device_connectivity d ok (world st)).2;
         all_links := all_links st |}
  | FetchConfig d dir fetched =>
      {| world := (get_device_config d dir fetched (world st)).2;
         all_links := all_links st |}
  | FetchInfo d dir version =>
      {| world := (get_device_info d dir version (world st)).2;
         all_links := all_links st |}
  | FetchLldp d lldp =>
      match primary_ip d with
      | None => st
      | Some _ =>
          let r := get_lldp_neighbors_napalm (name d) lldp (world st) in
          {| world := r.2;
             all_links :=
               match r.1 with
               | Some (entry :: more) =>
                   dict_set (name d) (entry :: more) (all_links st)
               | _ => all_links st
               end |}
      end
  end.

Definition run (st : RunState) (schedule : list Op) : RunState :=
  foldl step st schedule.

(** *** Topology synthesis *)

(** An element of [final_links]. The dict appended by the source,
    [{'endpoints': [f"{local_device}:{mapped_local_int}",
    f"{canonical_neighbor_name}:{mapped_neighbor_int}"]}], is determined by
    the four strings it is formatted from; the model keeps the four strings
    and [endpoints] formats them. *)
Record Link := {
  local_device : string;
  mapped_local_int : string;
  canonical_neighbor_name : string;
  mapped_neighbor_int : string
}.

Definition endpoints (l : Link) : string * string :=
  (local_device l +:+ ":" +:+ mapped_local_int l,
   canonical_neighbor_name l +:+ ":" +:+ mapped_neighbor_int l).

(** [link_tuple], the key kept in [processed_links]. *)
Definition link_tuple (l : Link) : string * string := sorted2 (endpoints l).

(** The two endpoint strings of an entry as an unordered set. *)
Definition endpoint_set (e : string * string) : gset string := {[ e.1; e.2 ]}.

Definition map_interface (node_template interface_name : string) : string :=
  if contains "ceos" node_template && startswith interface_name "Ethernet"
  then replace "/" "_" (replace "Ethernet" "eth" interface_name)
  else interface_name.

Definition node_template_name : string := "ceos-template".

(** The test of the generator expression on line 206. *)
Definition name_matches (neighbor_name_from_lldp n : string) : bool :=
  startswith (lower neighbor_name_from_lldp) (lower n)
  || startswith (lower n) (lower neighbor_name_from_lldp).

(** [next((n for n in netbox_device_names if ...), None)], with the set
    given in its iteration order. *)
Definition resolve_neighbor (netbox_device_names : list string)
    (neighbor_name_from_lldp : string) : option string :=
  List.find (name_matches neighbor_name_from_lldp) netbox_device_names.

Record SynthState := {
  processed_links : gset (string * string);
  final_links : list Link
}.

Definition init_state : SynthState :=
  {| processed_links := ∅; final_links := [] |}.

(** Body of the innermost loop (lines 204-214); [continue] returns the
    state as it is. An empty name is falsy, so [not canonical_neighbor_name]
    also holds for it. *)
Definition process_neighbor (netbox_device_names : list string)
    (unreachable : gset string) (local_dev local_interface : string)
    (st : SynthState) (neighbor_info : NeighborInfo) : SynthState :=
  let neighbor_name_from_lldp := hostname neighbor_info in
  let neighbor_interface := port neighbor_info in
  match resolve_neighbor netbox_device_names neighbor_name_from_lldp with
  | None => st
  | Some canonical =>
      if bool_decide (canonical = EmptyString)
         || bool_decide (canonical ∈ unreachable) then st
      else
        let mapped_local := map_interface node_template_name local_interface in
        let mapped_neighbor := map_interface node_template_name neighbor_interface in
        if negb (contains "eth" mapped_local)
           || negb (contains "eth" mapped_neighbor) then st
        else
          let link := {| local_device := local_dev;
                         mapped_local_int := mapped_local;
                         canonical_neighbor_name := canonical;
                         mapped_neighbor_int := mapped_neighbor |} in
          if bool_decide (link_tuple link ∈ processed_links st) then st
          else {| processed_links := {[ link_tuple link ]} ∪ processed_links st;
                  final_links := final_links st ++ [link] |}
  end.

(** The loop over one device's [neighbors_dict] (lines 202-203). *)
Definition process_interfaces (netbox_device_names : list string)
    (unreachable : gset string) (local_dev : string)
    (st : SynthState) (neighbors_dict : NeighborsDict) : SynthState :=
  foldl (fun st1 entry =>
           foldl (process_neighbor netbox_device_names unreachable
                    local_dev entry.1) st1 entry.2)
        st neighbors_dict.

(** The outer loop (lines 200-201). *)
Definition process_devices (netbox_device_names : list string)
    (unreachable : gset string) (st : SynthState)
    (links_data : LinksData) : SynthState :=
  foldl (fun st1 entry =>
           if bool_decide (entry.1 ∈ unreachable) then st1
           else process_interfaces netbox_device_names unreachable
                  entry.1 st1 entry.2)
        st links_data.

(** The neighbor records the three loops visit, in order: those of the
    report's devices that are not in the failure set. *)
Definition active_records (unreachable : gset string) (links_data : LinksData)
    : list (string * string * NeighborInfo) :=
  dev ← links_data;
  if bool_decide (dev.1 ∈ unreachable) then []
  else iface ← dev.2; nb ← iface.2; [(dev.1, iface.1, nb)].

(** The link a neighbor record stands for when it passes the tests of
    lines 207 and 210, before the duplicate test. *)
Definition candidate_link (netbox_device_names : list string)
    (unreachable : gset string) (r : string * string * NeighborInfo)
    : option Link :=
  match resolve_neighbor netbox_device_names (hostname r.2) with
  | None => None
  | Some canonical =>
      if bool_decide (canonical = EmptyString)
         || bool_decide (canonical ∈ unreachable) then None
      else if negb (contains "eth" (map_interface node_template_name r.1.2))
              || negb (contains "eth" (map_interface node_template_name (port r.2)))
      then None
      else Some {| local_device := r.1.1;
                   mapped_local_int := map_interface node_template_name r.1.2;
                   canonical_neighbor_name := canonical;
                   mapped_neighbor_int := map_interface node_template_name (port r.2) |}
  end.

(** One turn of the innermost loop on a visited record. *)
Definition visit (netbox_device_names : list string) (unreachable : gset string)
    (st : SynthState) (r : string * string * NeighborInfo) : SynthState :=
  process_neighbor netbox_device_names unreachable r.1.1 r.1.2 st r.2.

(** Loop invariant: [processed_links] holds exactly the keys of
    [final_links], and no key occurs twice. *)
Definition keys_agree (st : SynthState) : Prop :=
  (∀ k, k ∈ processed_links st ↔ k ∈ link_tuple <$> final_links st)
  ∧ NoDup (link_tuple <$> final_links st).

(** [s] starts with [p] when case is ignored. *)
Definition ci_starts_with (s p : string) : Prop :=
  ∃ rest, lower s = lower p +:+ rest.

(** [id] is the interface identifier that the synthesis keeps for the raw
    interface name [raw]. *)
Definition normalized (raw id : string) : Prop :=
  id = map_interface node_template_name raw
  ∧ contains "eth" id = true
  ∧ (startswith raw "Ethernet" = true → contains "/" id = false)
  ∧ (startswith raw "Ethernet" = false → id = raw).

(** What [generate_topology_file] hands to the template and returns. *)
Record Topology := {
  topology_name : string;
  topology_devices : list Device;
  node_template : string;
  links : list (string * string);
  topology_filepath : string
}.

Section Synthesis.

(** Iteration order of the set built from a list of names. *)
Variable set_order : list string → list string.

Definition reachable_devices (unreachable : gset string)
    (devices : list Device) : list Device :=
  filter (fun d => name d ∉ unreachable) devices.

Definition netbox_device_names (unreachable : gset string)
    (devices : list Device) : list string :=
  set_order (name <$> reachable_devices unreachable devices).

(** [final_links] when the loops of [generate_topology_file] are done. *)
Definition generate_links (unreachable : gset string)
    (devices : list Device) (links_data : LinksData) : list Link :=
  final_links
    (process_devices (netbox_device_names unreachable devices)
       unreachable init_state links_data).

Definition generate_topology_file (unreachable : gset string)
    (devices : list Device) (links_data : LinksData)
    (site_name lab_dir : string) : Topology :=
  {| topology_name := site_name;
     topology_devices := reachable_devices unreachable devices;
     node_template := node_template_name;
     links := endpoints <$> generate_links unreachable devices links_data;
     topology_filepath := path_join lab_dir (lower site_name +:+ ".clab.yml") |}.

End Synthesis.

(** [set_order] enumerates exactly the members of the set. *)
Definition enumerates (set_order : list string → list string) : Prop :=
  ∀ l x, x ∈ set_order l ↔ x ∈ l.

(** *** Harvesting, fan-in and counting *)

(** [configs_dir] and [sn_dir] of [provision_node_files] (lines 152-153);
    [os.path.join] with three arguments joins from the left. *)
Definition configs_dir (lab_dir : string) : string :=
  path_join (path_join lab_dir "nodes") "configs".

Definition sn_dir (lab_dir : string) : string :=
  path_join (path_join lab_dir "nodes") "sn".


Definition sn_filename (dir : string) (device : Device) : string :=
  path_join dir (name device +:+ ".txt").





(** [reachable_count] (line 143) and [reachable_devices] of
    [print_final_summary] (line 264): a difference of Python integers. *)
Definition reachable_count (devices : list Device) (unreachable : gset string) : Z :=
  (Z.of_nat (length devices) - Z.of_nat (size unreachable))%Z.

(** [d.get(k)] on an insertion-ordered dict. *)
Definition dict_get (k : string) (d : LinksData) : option NeighborsDict :=
  snd <$> List.find (fun e => bool_decide (e.1 = k)) d.

(** *** Deployment *)

(** How [subprocess.run(command, check=True)] ends. *)
Inductive ToolRun :=
  | Completed
  | ToolMissing
  | ToolFailed (stderr : string)
  | ToolCrashed (msg : string).

(** The exception [subprocess.run] raises, if any. *)
Definition tool_exception (r : ToolRun) : option Exn :=
  match r with
  | Completed => None
  | ToolMissing => Some FileNotFoundError
  | ToolFailed stderr => Some (CalledProcessError stderr)
  | ToolCrashed msg => Some (OtherException msg)
  end.

(** [str(e)] as far as the handlers print it. *)
Definition exn_text (e : Exn) : string :=
  match e with
  | OtherException msg => msg
  | CalledProcessError stderr => stderr
  | FileNotFoundError => "No such file or directory: 'containerlab'"
  | AttributeError => "'NoneType' object has no attribute 'address'"
  end.

Definition rule : string := "--------------------------------------------------".

Definition msg_not_found : string :=
  "   -> ❌ Error: 'containerlab' command not found. Is it installed and in your PATH?".
Definition msg_nonzero : string :=
  "   -> ❌ Error: Containerlab exited with a non-zero status. See the output above for details.".

(** The three [except] clauses of [deploy_containerlab]: report, then
    [raise] the caught exception again. *)
Definition deploy_handler (e : Exn) : list string * Result unit :=
  match e with
  | FileNotFoundError => ([newline +:+ rule; msg_not_found], Raised e)
  | CalledProcessError _ => ([newline +:+ rule; msg_nonzero], Raised e)
  | _ =>
      ([newline +:+ "   -> ❌ An unexpected error occurred: " +:+ exn_text e],
       Raised e)
  end.

(** The [try] statement of [deploy_containerlab] (lines 240-259): the lines
    printed and how the call ends; [deploy] and [inspect] are the outcomes
    of the two commands. *)
Definition deploy_containerlab (topology_file : string)
    (deploy inspect : ToolRun) : list string * Result unit :=
  match tool_exception deploy with
  | Some e => deploy_handler e
  | None =>
      let printed :=
        [rule; "   -> ✅ Containerlab deployment completed successfully.";
         newline +:+ "   -> 📋 Running lab inspection..."] in
      match tool_exception inspect with
      | Some e => (printed ++ (deploy_handler e).1, (deploy_handler e).2)
      | None => (printed, Returned ())
      end
  end.

(** The end of [main] (lines 330-341): an exception that leaves
    [deploy_containerlab] is reported and raised again, otherwise the
    summary is printed and [main] returns. *)
Definition main_deploy (topology_file : string) (deploy inspect : ToolRun)
    : list string * Result unit :=
  let r := deploy_containerlab topology_file deploy inspect in
  match r.2 with
  | Raised e =>
      (r.1 ++ [newline +:+ "   -> ❌ A critical error occurred. Exiting."],
       Raised e)
  | Returned _ => (r.1, Returned ())
  end.

(** Exit status of the interpreter: 1 when an exception leaves [main]. *)
Definition exit_status (r : Result unit) : nat :=
  match r with
  | Returned _ => 0
  | Raised _ => 1
  end.

(** [lab_dir] in [main] (line 289). *)
Definition main_lab_dir (site_name : string) : string := lower site_name.

End Generator.

(** ** cleanup.py *)
Module Cleanup.
Import PyStr.
Import Generator.

Definition msg_tool_not_found : string :=
  "   -> ❌ Error: 'containerlab' command not found. Is it installed and in your PATH?".
Definition msg_failed : string :=
  "   -> ❌ Error during destroy: Containerlab exited with an error.".

(** [destroy_containerlab]: the lines printed after the banner and how the
    call ends. [file_exists] is [os.path.exists(topology_file)] and
    [destroy] the outcome of the command. No [except] clause raises. *)
Definition destroy_containerlab (topology_file : string) (file_exists : bool)
    (destroy : ToolRun) : list string * Result unit :=
  if negb file_exists then
    (["   -> 🟡 Topology file not found, skipping destroy: " +:+ topology_file],
     Returned ())
  else
    match tool_exception destroy with
    | None => (["   ✅ Containerlab environment destroyed successfully."], Returned ())
    | Some FileNotFoundError => ([msg_tool_not_found], Returned ())
    | Some (CalledProcessError stderr) =>
        ([msg_failed; "      STDERR: " +:+ strip stderr], Returned ())
    | Some e =>
        (["   -> ❌ An unexpected error occurred: " +:+ exn_text e], Returned ())
    end.

(** [lab_dir] and [topology_file] in [main] (lines 49-50). *)
Definition lab_dir (site_name : string) : string := lower site_name.

Definition topology_file (site_name : string) : string :=
  path_join (lab_dir site_name) (lab_dir site_name +:+ ".clab.yml").

(** [main]: destroy, then remove the lab directory, then report; the text
    of the removal step is left out. *)
Definition main (site_name : string) (file_exists : bool) (destroy : ToolRun)
    : list string * Result unit :=
  let r := destroy_containerlab (topology_file site_name) file_exists destroy in
  match r.2 with
  | Raised e => (r.1, Raised e)
  | Returned _ => (r.1 ++ [newline +:+ "Cleanup complete."], Returned ())
  end.

(** [remove_generated_files]: [is_dir] is [os.path.isdir(lab_dir)] and
    [rmtree_error] the [OSError] of [shutil.rmtree], if it raised one. *)
Definition remove_generated_files (lab_dir : string) (is_dir : bool)
    (rmtree_error : option string) : list string * Result unit :=
  if is_dir then
    match rmtree_error with
    | None => (["   ✅ Successfully removed directory: " +:+ lab_dir], Returned ())
    | Some e =>
        (["   -> ❌ Error removing directory " +:+ lab_dir +:+ ": " +:+ e],
         Returned ())
    end
  else (["   -> 🟡 Directory not found, skipping: " +:+ lab_dir], Returned ()).

(** [main] with both steps (lines 49-55): the lines printed after the
    start-up line and how the program ends. *)
Definition cleanup_main (site_name : string) (file_exists : bool)
    (destroy : ToolRun) (is_dir : bool) (rmtree_error : option string)
    : list string * Result unit :=
  let r1 := destroy_containerlab (topology_file site_name) file_exists destroy in
  match r1.2 with
  | Raised e => (r1.1, Raised e)
  | Returned _ =>
      let r2 := remove_generated_files (lab_dir site_name) is_dir rmtree_error in
      match r2.2 with
      | Raised e => (r1.1 ++ r2.1, Raised e)
      | Returned _ =>
          (r1.1 ++ r2.1 ++ [newline +:+ "Cleanup complete."], Returned ())
      end
  end.

End Cleanup.

(** ** The identity value as the specification words it *)
Module Spec.
Import PyStr.

Fixpoint after_first (sep : ascii) (s : string) : option string :=
  match s with
  | EmptyString => None
  | String c rest => if decide (c = sep) then Some rest else after_first sep rest
  end.

(** The entire text after the first separator of the line, trimmed. *)
Definition spec_field_value (line : string) : option string :=
  strip <$> after_first ":" line.

End Spec.

(** ** Inputs of the scenarios *)
Module Scenario.
Import PyStr.
Import Generator.

Definition device_A : Device :=
  {| name := "A"; primary_ip := Some "192.0.2.1/24" |}.
Definition device_B : Device :=
  {| name := "B"; primary_ip := Some "192.0.2.2/24" |}.
Definition device_leaf01 : Device :=
  {| name := "leaf01"; primary_ip := Some "192.0.2.11/24" |}.

Definition report_of_A : string * NeighborsDict :=
  ("A", [("Ethernet2", [{| hostname := "B"; port := "Ethernet1" |}])]).
Definition report_of_B : string * NeighborsDict :=
  ("B", [("Ethernet1", [{| hostname := "A"; port := "Ethernet2" |}])]).

(** A reports a peer port that is already written in the virtual form. *)
Definition slash_report : LinksData :=
  [("A", [("Ethernet1", [{| hostname := "B"; port := "eth1/2" |}])])].

(** A [show version] text with the MAC address written with colons. *)
Definition version_text : string :=
  "Serial number: JPE1234" +:+ newline
  +:+ "System MAC address:  00:1c:73:aa:bb:cc" +:+ newline.

Definition empty_world : World := {| unreachable_devices := ∅; files := ∅ |}.

End Scenario.

Import PyStr Generator Spec Scenario.

(** ** Facts about the string methods *)
Section StringFacts.

Lemma append_cons (c : ascii) (s t : string) :
  String c s +:+ t = String c (s +:+ t).
Proof. reflexivity. Qed.

Lemma prefix_split (p s : string) :
  String.prefix p s = true → ∃ r, s = p +:+ r.
Proof.
  revert s. induction p as [|a p IH]; intros s H.
  - by exists s.
  - destruct s as [|b s]; [done|]. simpl in H.
    destruct (ascii_dec a b) as [->|]; [|done].
    destruct (IH _ H) as [r ->]. by exists r.
Qed.

Lemma prefix_append (p r : string) : String.prefix p (p +:+ r) = true.
Proof.
  induction p as [|a p IH]; [by destruct r|].
  rewrite append_cons. simpl. by destruct (ascii_dec a a).
Qed.

Lemma length_drop_chars (n : nat) (s : string) :
  String.length (drop_chars n s) = String.length s - n.
Proof.
  revert s. induction n as [|n IH]; intros [|c s]; simpl; auto with lia.
Qed.

Lemma replace_from_empty (n : nat) (old new : string) :
  replace_from n old new EmptyString = EmptyString.
Proof. by destruct n. Qed.

(** Fuel beyond the length of the text changes nothing. *)
Lemma replace_from_more (old new : string) (n m : nat) (s : string) :
  old ≠ EmptyString →
  String.length s ≤ n → String.length s ≤ m →
  replace_from n old new s = replace_from m old new s.
Proof.
  intros Hold. revert m s.
  induction n as [|n IH]; intros m s Hn Hm.
  - destruct s; simpl in Hn; [|lia]. by rewrite !replace_from_empty.
  - destruct m as [|m].
    { destruct s; simpl in Hm; [|lia]. done. }
    destruct s as [|c s]; [done|]. simpl in Hn, Hm.
    change (replace_from (S n) old new (String c s)) with
      (if String.prefix old (String c s)
       then new +:+ replace_from n old new (drop_chars (String.length old) (String c s))
       else String c (replace_from n old new s)).
    change (replace_from (S m) old new (String c s)) with
      (if String.prefix old (String c s)
       then new +:+ replace_from m old new (drop_chars (String.length old) (String c s))
       else String c (replace_from m old new s)).
    destruct (String.prefix old (String c s)).
    + f_equal. apply IH; rewrite length_drop_chars; simpl;
        destruct old; simpl; try done; lia.
    + f_equal. apply IH; lia.
Qed.

Lemma replace_from_enough (old new : string) (n : nat) (s : string) :
  old ≠ EmptyString → String.length s ≤ n →
  replace_from n old new s = replace old new s.
Proof. intros. unfold replace. by apply replace_from_more. Qed.

Lemma contains_cons_false (sub : string) (c : ascii) (s : string) :
  contains sub (String c s) = false ↔
  String.prefix sub (String c s) = false ∧ contains sub s = false.
Proof. simpl. apply orb_false_iff. Qed.

Lemma replace_from_step (n : nat) (old new : string) (c : ascii) (s : string) :
  replace_from (S n) old new (String c s) =
  if String.prefix old (String c s)
  then new +:+ replace_from n old new (drop_chars (String.length old) (String c s))
  else String c (replace_from n old new s).
Proof. reflexivity. Qed.

Lemma prefix_char (a c : ascii) (s : string) :
  String.prefix (String a EmptyString) (String c s) = bool_decide (a = c).
Proof.
  simpl. destruct (ascii_dec a c) as [->|Hne].
  - rewrite bool_decide_eq_true_2; [by destruct s|done].
  - by rewrite bool_decide_eq_false_2.
Qed.

(** After replacing a character by another one, the character is gone. *)
Lemma replace_from_char (a b : ascii) (n : nat) (s : string) :
  a ≠ b → String.length s ≤ n →
  contains (String a EmptyString)
    (replace_from n (String a EmptyString) (String b EmptyString) s) = false.
Proof.
  intros Hab. revert s. induction n as [|n IH]; intros s Hn.
  - destruct s; simpl in Hn; [done|lia].
  - destruct s as [|c s]; [done|]. simpl in Hn.
    rewrite replace_from_step, prefix_char.
    destruct (decide (a = c)) as [<-|Hc].
    + rewrite bool_decide_eq_true_2 by done.
      change (String b EmptyString +:+ ?x) with (String b x).
      apply contains_cons_false. split.
      * rewrite prefix_char. by apply bool_decide_eq_false_2.
      * apply IH. simpl. lia.
    + rewrite bool_decide_eq_false_2 by done.
      apply contains_cons_false. split.
      * rewrite prefix_char. by apply bool_decide_eq_false_2.
      * apply IH. lia.
Qed.

Lemma replace_slash_free (s : string) :
  contains "/" (replace "/" "_" s) = false.
Proof. by apply replace_from_char. Qed.

(** Replacing one character by another keeps a prefix that is free of it. *)
Lemma replace_from_char_keeps (a b c : ascii) (n : nat) (s : string) :
  a ≠ c →
  replace_from (S n) (String a EmptyString) (String b EmptyString) (String c s)
  = String c (replace_from n (String a EmptyString) (String b EmptyString) s).
Proof.
  intros Hac. rewrite replace_from_step, prefix_char.
  by rewrite bool_decide_eq_false_2.
Qed.

End StringFacts.

Section MapInterfaceFacts.

Lemma length_append (s t : string) :
  String.length (s +:+ t) = String.length s + String.length t.
Proof. induction s as [|c s IH]; [done|]. rewrite append_cons. simpl. lia. Qed.

Lemma drop_chars_append (p r : string) :
  drop_chars (String.length p) (p +:+ r) = r.
Proof. induction p as [|c p IH]; [by destruct r|]. by rewrite append_cons. Qed.

(** An occurrence at the very start is replaced first. *)
Lemma replace_prefix (old new r : string) :
  old ≠ EmptyString →
  replace old new (old +:+ r) = new +:+ replace old new r.
Proof.
  intros Hold. unfold replace at 1.
  assert (∃ a rest, old +:+ r = String a rest
                    ∧ String.length r ≤ String.length rest) as (a & rest & Hs & Hlen).
  { destruct old as [|a old']; [done|]. exists a, (old' +:+ r).
    split; [done|]. rewrite length_append. lia. }
  pose proof (prefix_append old r) as Hp.
  pose proof (drop_chars_append old r) as Hd.
  rewrite Hs in *. simpl String.length.
  rewrite replace_from_step, Hp, Hd.
  f_equal. by apply replace_from_enough.
Qed.

(** The rewriting branch of [map_interface] on a name that begins with the
    physical-port prefix. *)
Lemma rewrite_ethernet (r : string) :
  replace "/" "_" (replace "Ethernet" "eth" ("Ethernet" +:+ r))
  = "eth" +:+ replace "/" "_" (replace "Ethernet" "eth" r).
Proof.
  rewrite replace_prefix by done.
  set (x := replace "Ethernet" "eth" r).
  unfold replace at 1. rewrite length_append.
  change ("eth" +:+ x) with (String "e" (String "t" (String "h" x))).
  change (String.length "eth" + String.length x)
    with (S (S (S (String.length x)))).
  by rewrite !replace_from_char_keeps.
Qed.

Lemma map_interface_ethernet (t r : string) :
  contains "ceos" t = true →
  map_interface t ("Ethernet" +:+ r)
  = "eth" +:+ replace "/" "_" (replace "Ethernet" "eth" r).
Proof.
  intros Ht. unfold map_interface, startswith.
  rewrite Ht, prefix_append. simpl andb. cbv iota. apply rewrite_ethernet.
Qed.

Lemma map_interface_passthrough (t s : string) :
  contains "ceos" t && startswith s "Ethernet" = false →
  map_interface t s = s.
Proof. intros H. unfold map_interface. by rewrite H. Qed.

Lemma map_interface_slash_free (t s : string) :
  contains "ceos" t && startswith s "Ethernet" = true →
  contains "/" (map_interface t s) = false.
Proof.
  intros H. unfold map_interface. rewrite H. apply replace_slash_free.
Qed.

End MapInterfaceFacts.

(** C10. [map_interface] is idempotent: for every template tag and every
    interface name, normalizing a normalized name returns it unchanged. *)
Theorem map_interface_idempotent (t s : string) :
  map_interface t (map_interface t s) = map_interface t s.
Proof.
  destruct (contains "ceos" t && startswith s "Ethernet") eqn:Hc.
  - apply andb_true_iff in Hc as [Ht Hs].
    apply prefix_split in Hs as [r ->].
    rewrite map_interface_ethernet by done.
    apply map_interface_passthrough.
    apply andb_false_iff. right. reflexivity.
  - rewrite (map_interface_passthrough t s) by done.
    by apply map_interface_passthrough.
Qed.

(** ** The synthesis loops *)
Section SynthesisFacts.

Context (names : list string) (unr : gset string).

Lemma process_interfaces_flat (L : string) (st : SynthState) (nd : NeighborsDict) :
  process_interfaces names unr L st nd
  = foldl (visit names unr) st (iface ← nd; nb ← iface.2; [(L, iface.1, nb)]).
Proof.
  unfold process_interfaces. revert st.
  induction nd as [|[li nbs] nd IH]; intros st; [done|].
  rewrite bind_cons, foldl_app. simpl. rewrite IH. f_equal.
  clear. revert st. induction nbs as [|nb nbs IH]; intros st; [done|].
  simpl. apply IH.
Qed.

Lemma process_devices_flat (st : SynthState) (data : LinksData) :
  process_devices names unr st data = foldl (visit names unr) st (active_records unr data).
Proof.
  unfold process_devices, active_records. revert st.
  induction data as [|[L nd] data IH]; intros st; [done|].
  rewrite bind_cons, foldl_app. simpl. rewrite IH. f_equal.
  destruct (bool_decide (L ∈ unr)); [done|].
  apply process_interfaces_flat.
Qed.

Lemma visit_candidate (st : SynthState) (r : string * string * NeighborInfo) :
  visit names unr st r =
  match candidate_link names unr r with
  | None => st
  | Some l =>
      if bool_decide (link_tuple l ∈ processed_links st) then st
      else {| processed_links := {[ link_tuple l ]} ∪ processed_links st;
              final_links := final_links st ++ [l] |}
  end.
Proof.
  unfold visit, process_neighbor, candidate_link.
  destruct (resolve_neighbor names (hostname r.2)) as [c|]; [|done].
  destruct (bool_decide (c = EmptyString) || bool_decide (c ∈ unr)); [done|].
  by destruct (negb (contains "eth" (map_interface node_template_name r.1.2))
            || negb (contains "eth" (map_interface node_template_name (port r.2)))).
Qed.

Lemma keys_agree_init : keys_agree init_state.
Proof. split; [|constructor]. intros k. simpl. set_solver. Qed.

Lemma keys_agree_visit (st : SynthState) (r : string * string * NeighborInfo) :
  keys_agree st → keys_agree (visit names unr st r).
Proof.
  intros [Hk Hnd]. rewrite visit_candidate.
  destruct (candidate_link names unr r) as [l|]; [|done].
  case_bool_decide as Hin; [done|]. split; simpl.
  - intros k. rewrite fmap_app, elem_of_app, elem_of_union, Hk. simpl.
    rewrite elem_of_singleton, list_elem_of_singleton. tauto.
  - rewrite fmap_app. apply NoDup_app. split; [done|]. split.
    + intros k Hk1 Hk2. simpl in Hk2. apply list_elem_of_singleton in Hk2.
      subst. by apply Hin, Hk.
    + simpl. apply NoDup_singleton.
Qed.

Lemma keys_agree_foldl (rs : list (string * string * NeighborInfo)) (st : SynthState) :
  keys_agree st → keys_agree (foldl (visit names unr) st rs).
Proof.
  revert st. induction rs as [|r rs IH]; intros st H; [done|].
  simpl. by apply IH, keys_agree_visit.
Qed.

(** Every link of the result is the candidate of a visited record. *)
Lemma final_links_origin (rs : list (string * string * NeighborInfo)) (l : Link) :
  l ∈ final_links (foldl (visit names unr) init_state rs) →
  ∃ r, r ∈ rs ∧ candidate_link names unr r = Some l.
Proof.
  induction rs as [|r rs IH] using rev_ind; [by intros ?%elem_of_nil|].
  rewrite foldl_snoc, visit_candidate.
  destruct (candidate_link names unr r) as [l'|] eqn:Hc.
  - case_bool_decide.
    + intros (r' & ? & ?)%IH. exists r'. rewrite elem_of_app. auto.
    + simpl. rewrite elem_of_app, list_elem_of_singleton.
      intros [(r' & ? & ?)%IH| ->].
      * exists r'. rewrite elem_of_app. auto.
      * exists r. rewrite elem_of_app, list_elem_of_singleton. auto.
  - intros (r' & ? & ?)%IH. exists r'. rewrite elem_of_app. auto.
Qed.

(** Keys are never forgotten. *)
Lemma processed_links_grow (rs : list (string * string * NeighborInfo))
    (st : SynthState) (k : string * string) :
  k ∈ processed_links st → k ∈ processed_links (foldl (visit names unr) st rs).
Proof.
  revert st. induction rs as [|r rs IH]; intros st Hk; [done|].
  simpl. apply IH. rewrite visit_candidate.
  destruct (candidate_link names unr r); [|done].
  case_bool_decide; [done|]. simpl. set_solver.
Qed.

(** The key of every visited record that passes the tests is recorded. *)
Lemma candidate_recorded (rs : list (string * string * NeighborInfo))
    (st : SynthState) (r : string * string * NeighborInfo) (l : Link) :
  r ∈ rs → candidate_link names unr r = Some l →
  link_tuple l ∈ processed_links (foldl (visit names unr) st rs).
Proof.
  revert st. induction rs as [|r' rs IH]; intros st Hr Hc.
  { by apply elem_of_nil in Hr. }
  apply elem_of_cons in Hr as [->|Hr]; simpl; [|by apply IH].
  apply processed_links_grow. rewrite visit_candidate, Hc.
  case_bool_decide; [done|]. simpl. set_solver.
Qed.

End SynthesisFacts.

Section UnorderedPairs.

Lemma sorted2_swap (a b : string) : sorted2 (a, b) = sorted2 (b, a).
Proof.
  unfold sorted2, String.ltb. simpl.
  rewrite (String.compare_antisym a b).
  destruct (String.compare b a) eqn:E; simpl; try done.
  apply String.compare_eq_iff in E. by subst.
Qed.

Lemma endpoint_set_cases (a b c d : string) :
  endpoint_set (a, b) = endpoint_set (c, d) ↔
  (a = c ∧ b = d) ∨ (a = d ∧ b = c).
Proof.
  unfold endpoint_set. simpl. split.
  - intros H.
    assert (∀ x, x = a ∨ x = b ↔ x = c ∨ x = d) as Hx.
    { intros x.
      assert (x ∈ ({[a; b]} : gset string) ↔ x ∈ ({[c; d]} : gset string)) as Hm
        by (by rewrite H).
      by rewrite !elem_of_union, !elem_of_singleton in Hm. }
    destruct (proj1 (Hx a)) as [->| ->]; [by left|..].
    + destruct (proj2 (Hx d)) as [->| ->]; [by right|..]; auto.
      destruct (proj1 (Hx b)) as [->| ->]; auto.
    + destruct (proj2 (Hx c)) as [->| ->]; [by left|..]; auto.
      destruct (proj1 (Hx b)) as [->| ->]; auto.
  - intros [[-> ->]|[-> ->]]; [done|]. apply set_eq. intros x.
    rewrite !elem_of_union, !elem_of_singleton. tauto.
Qed.

(** The sorted pair is a faithful key for the unordered pair. *)
Lemma sorted2_endpoint_set (p q : string * string) :
  sorted2 p = sorted2 q ↔ endpoint_set p = endpoint_set q.
Proof.
  destruct p as [a b], q as [c d]. rewrite endpoint_set_cases. split.
  - unfold sorted2. simpl.
    destruct (String.ltb b a), (String.ltb d c); intros [= -> ->]; auto.
  - intros [[-> ->]|[-> ->]]; [done|]. apply sorted2_swap.
Qed.

Lemma link_tuple_endpoint_set (l1 l2 : Link) :
  link_tuple l1 = link_tuple l2 ↔
  endpoint_set (endpoints l1) = endpoint_set (endpoints l2).
Proof. apply sorted2_endpoint_set. Qed.

Lemma no_entry_without_key (ls : list Link) (e0 : string * string) :
  sorted2 e0 ∉ link_tuple <$> ls →
  filter (λ e, endpoint_set e = endpoint_set e0) (endpoints <$> ls) = [].
Proof.
  induction ls as [|l ls IH]; [done|]. rewrite fmap_cons, not_elem_of_cons.
  intros [Hne Hnin]. rewrite fmap_cons, filter_cons.
  case_decide as Heq; [|by apply IH].
  destruct Hne. symmetry. by apply sorted2_endpoint_set.
Qed.

Lemma one_entry_per_key (ls : list Link) (e0 : string * string) :
  NoDup (link_tuple <$> ls) → sorted2 e0 ∈ link_tuple <$> ls →
  length (filter (λ e, endpoint_set e = endpoint_set e0) (endpoints <$> ls)) = 1.
Proof.
  induction ls as [|l ls IH]; [by intros _ ?%elem_of_nil|].
  rewrite !fmap_cons, NoDup_cons, elem_of_cons, filter_cons.
  intros [Hnin Hnd] Hin. case_decide as Heq.
  - apply sorted2_endpoint_set in Heq. unfold link_tuple in Hnin at 1.
    rewrite Heq in Hnin. by rewrite no_entry_without_key.
  - destruct Hin as [Hk|Hin]; [|by apply IH].
    destruct Heq. symmetry. by apply sorted2_endpoint_set.
Qed.

End UnorderedPairs.

(** C1. The link list handed to the template holds no two entries whose
    endpoint pairs are equal as unordered sets, whatever the devices, the
    failure set and the report. In particular, when the report holds the
    two symmetric records of a link (A sees B's interface on its own, B sees
    A's interface on its own) and they pass the name and marker tests,
    exactly one entry of the list stands for that link. *)
Theorem dedup_invariant (set_order : list string → list string)
    (unr : gset string) (devices : list Device) (data : LinksData)
    (site_name lab_dir : string) :
  let out := links (generate_topology_file set_order unr devices data site_name lab_dir) in
  let names := netbox_device_names set_order unr devices in
  (∀ i j e1 e2, i ≠ j → out !! i = Some e1 → out !! j = Some e2 →
     endpoint_set e1 ≠ endpoint_set e2)
  ∧ (∀ A iA B iB hintA hintB,
       (A, iA, {| hostname := hintB; port := iB |}) ∈ active_records unr data →
       (B, iB, {| hostname := hintA; port := iA |}) ∈ active_records unr data →
       resolve_neighbor names hintB = Some B →
       resolve_neighbor names hintA = Some A →
       A ≠ EmptyString → B ≠ EmptyString → A ∉ unr → B ∉ unr →
       contains "eth" (map_interface node_template_name iA) = true →
       contains "eth" (map_interface node_template_name iB) = true →
       length (filter (λ e, endpoint_set e =
                 endpoint_set (A +:+ ":" +:+ map_interface node_template_name iA,
                               B +:+ ":" +:+ map_interface node_template_name iB))
                 out) = 1).
Proof.
  intros out names.
  assert (keys_agree (process_devices names unr init_state data)) as [Hk Hnd].
  { rewrite process_devices_flat. apply keys_agree_foldl, keys_agree_init. }
  subst out. unfold generate_topology_file, generate_links. simpl.
  fold names. split.
  - intros i j e1 e2 Hij H1 H2 Heq. apply Hij.
    apply list_lookup_fmap_Some in H1 as (l1 & -> & H1).
    apply list_lookup_fmap_Some in H2 as (l2 & -> & H2).
    apply link_tuple_endpoint_set in Heq.
    apply (proj1 (NoDup_alt _) Hnd i j (link_tuple l1));
      rewrite list_lookup_fmap.
    + by rewrite H1.
    + rewrite H2. simpl. by rewrite Heq.
  - intros A iA B iB hintA hintB HrA _ HresB _ HA HB HAu HBu HeA HeB.
    apply one_entry_per_key; [done|]. apply Hk.
    rewrite process_devices_flat.
    eapply (candidate_recorded _ _ _ _ _
              {| local_device := A;
                 mapped_local_int := map_interface node_template_name iA;
                 canonical_neighbor_name := B;
                 mapped_neighbor_int := map_interface node_template_name iB |});
      [exact HrA|].
    unfold candidate_link. simpl. rewrite HresB.
    rewrite (bool_decide_eq_false_2 _ HB), (bool_decide_eq_false_2 _ HBu).
    by rewrite HeA, HeB.
Qed.

Section ResolutionFacts.

Lemma startswith_ci (s p : string) :
  startswith (lower s) (lower p) = true ↔ ci_starts_with s p.
Proof.
  unfold startswith, ci_starts_with. split.
  - apply prefix_split.
  - intros [r ->]. apply prefix_append.
Qed.

Lemma name_matches_ci (hint c : string) :
  name_matches hint c = true ↔ ci_starts_with hint c ∨ ci_starts_with c hint.
Proof.
  unfold name_matches. by rewrite orb_true_iff, !startswith_ci.
Qed.

Lemma resolve_neighbor_Some (names : list string) (hint c : string) :
  resolve_neighbor names hint = Some c →
  c ∈ names ∧ name_matches hint c = true.
Proof.
  unfold resolve_neighbor. intros [H1 H2]%find_some.
  by rewrite list_elem_of_In.
Qed.

Lemma resolve_neighbor_None (names : list string) (hint : string) :
  resolve_neighbor names hint = None ↔
  ∀ c, c ∈ names → name_matches hint c = false.
Proof.
  unfold resolve_neighbor. split.
  - intros H c Hc. apply (find_none _ _ H). by apply list_elem_of_In.
  - intros H. destruct (find _ _) as [c|] eqn:E; [|done].
    apply find_some in E as [Hc Hm]. apply list_elem_of_In in Hc.
    by rewrite (H c Hc) in Hm.
Qed.

(** When one member only satisfies the test, the iteration order does not
    matter. *)
Lemma resolve_neighbor_unique (names : list string) (hint c : string) :
  c ∈ names → name_matches hint c = true →
  (∀ x, x ∈ names → name_matches hint x = true → x = c) →
  resolve_neighbor names hint = Some c.
Proof.
  intros Hc Hm Huniq.
  destruct (resolve_neighbor names hint) as [x|] eqn:E.
  - apply resolve_neighbor_Some in E as [Hx Hmx]. f_equal. by apply Huniq.
  - rewrite resolve_neighbor_None in E. by rewrite (E c Hc) in Hm.
Qed.

Lemma candidate_link_Some (names : list string) (unr : gset string)
    (r : string * string * NeighborInfo) (l : Link) :
  candidate_link names unr r = Some l →
  resolve_neighbor names (hostname r.2) = Some (canonical_neighbor_name l)
  ∧ canonical_neighbor_name l ≠ EmptyString
  ∧ (canonical_neighbor_name l ∉ unr)
  ∧ local_device l = r.1.1
  ∧ mapped_local_int l = map_interface node_template_name r.1.2
  ∧ mapped_neighbor_int l = map_interface node_template_name (port r.2)
  ∧ contains "eth" (mapped_local_int l) = true
  ∧ contains "eth" (mapped_neighbor_int l) = true.
Proof.
  unfold candidate_link.
  destruct (resolve_neighbor names (hostname r.2)) as [c|]; [|done].
  destruct (bool_decide (c = EmptyString) || bool_decide (c ∈ unr)) eqn:E1; [done|].
  destruct (negb (contains "eth" (map_interface node_template_name r.1.2))
            || negb (contains "eth" (map_interface node_template_name (port r.2))))
    eqn:E2; [done|].
  intros [= <-]. simpl.
  apply orb_false_iff in E1 as [?%bool_decide_eq_false ?%bool_decide_eq_false].
  apply orb_false_iff in E2 as [?%negb_false_iff ?%negb_false_iff].
  done.
Qed.

Lemma active_records_elem (unr : gset string) (data : LinksData)
    (r : string * string * NeighborInfo) :
  r ∈ active_records unr data → r.1.1 ∉ unr.
Proof.
  unfold active_records. rewrite list_elem_of_bind.
  intros ([L nd] & Hr & _). simpl in Hr.
  case_bool_decide as HL; [by apply elem_of_nil in Hr|].
  apply list_elem_of_bind in Hr as (iface & Hr & _).
  apply list_elem_of_bind in Hr as (nb & Hr & _).
  apply list_elem_of_singleton in Hr. by subst.
Qed.

Lemma generate_links_origin (set_order : list string → list string)
    (unr : gset string) (devices : list Device) (data : LinksData) (l : Link) :
  l ∈ generate_links set_order unr devices data →
  ∃ r, r ∈ active_records unr data
       ∧ candidate_link (netbox_device_names set_order unr devices) unr r = Some l.
Proof.
  unfold generate_links. rewrite process_devices_flat.
  apply final_links_origin.
Qed.

End ResolutionFacts.

Section ScenarioFacts.

Context (set_order : list string → list string) (Henum : enumerates set_order).

Local Abbreviation names := (netbox_device_names set_order ∅ [device_A; device_B]).

Lemma names_A_B (x : string) : x ∈ names ↔ x = "A" ∨ x = "B".
Proof.
  unfold netbox_device_names. rewrite (Henum _ x).
  change (name <$> reachable_devices ∅ [device_A; device_B]) with ["A"; "B"].
  rewrite elem_of_cons, list_elem_of_singleton. done.
Qed.

Lemma resolve_A : resolve_neighbor names "A" = Some "A".
Proof.
  apply resolve_neighbor_unique; [apply names_A_B; auto|done|].
  intros x [->| ->]%names_A_B; [done|]. by intros [=].
Qed.

Lemma resolve_B : resolve_neighbor names "B" = Some "B".
Proof.
  apply resolve_neighbor_unique; [apply names_A_B; auto|done|].
  intros x [->| ->]%names_A_B; [|done]. by intros [=].
Qed.

Lemma scenario_links_A_first :
  generate_links set_order ∅ [device_A; device_B] [report_of_A; report_of_B]
  = [{| local_device := "A"; mapped_local_int := "eth2";
        canonical_neighbor_name := "B"; mapped_neighbor_int := "eth1" |}].
Proof.
  unfold generate_links. rewrite process_devices_flat.
  change (active_records ∅ [report_of_A; report_of_B]) with
    [("A", "Ethernet2", {| hostname := "B"; port := "Ethernet1" |});
     ("B", "Ethernet1", {| hostname := "A"; port := "Ethernet2" |})].
  simpl foldl. rewrite !visit_candidate. unfold candidate_link. simpl hostname.
  rewrite resolve_B. vm_compute bool_decide.
  rewrite resolve_A. by vm_compute.
Qed.

Lemma scenario_links_B_first :
  generate_links set_order ∅ [device_A; device_B] [report_of_B; report_of_A]
  = [{| local_device := "B"; mapped_local_int := "eth1";
        canonical_neighbor_name := "A"; mapped_neighbor_int := "eth2" |}].
Proof.
  unfold generate_links. rewrite process_devices_flat.
  change (active_records ∅ [report_of_B; report_of_A]) with
    [("B", "Ethernet1", {| hostname := "A"; port := "Ethernet2" |});
     ("A", "Ethernet2", {| hostname := "B"; port := "Ethernet1" |})].
  simpl foldl. rewrite !visit_candidate. unfold candidate_link. simpl hostname.
  rewrite resolve_A. vm_compute bool_decide.
  rewrite resolve_B. by vm_compute.
Qed.

End ScenarioFacts.

Lemma remove_dups_enumerates : enumerates remove_dups.
Proof. intros l x. apply elem_of_remove_dups. Qed.

(** C6. Two reachable devices A and B; A reports neighbor B, port Ethernet1,
    on its Ethernet2 and B reports neighbor A, port Ethernet2, on its
    Ethernet1: under the ceos template the link list is the single entry
    [A:eth2, B:eth1]. With the two reports inserted in the other order the
    single entry names the same two endpoints, B's first. *)
Theorem end_to_end_scenario (set_order : list string → list string)
    (site_name lab_dir : string) :
  enumerates set_order →
  links (generate_topology_file set_order ∅ [device_A; device_B]
           [report_of_A; report_of_B] site_name lab_dir)
  = [("A:eth2", "B:eth1")]
  ∧ links (generate_topology_file set_order ∅ [device_A; device_B]
             [report_of_B; report_of_A] site_name lab_dir)
    = [("B:eth1", "A:eth2")]
  ∧ endpoint_set ("B:eth1", "A:eth2") = endpoint_set ("A:eth2", "B:eth1").
Proof.
  intros Henum. unfold generate_topology_file. simpl links.
  rewrite scenario_links_A_first, scenario_links_B_first by done.
  split; [done|]. split; [done|]. apply endpoint_set_cases. auto.
Qed.

Lemma end_to_end_scenario_witness :
  enumerates remove_dups
  ∧ links (generate_topology_file remove_dups ∅ [device_A; device_B]
             [report_of_A; report_of_B] "Site" "site")
    = [("A:eth2", "B:eth1")].
Proof.
  split; [exact remove_dups_enumerates|].
  exact (proj1 (end_to_end_scenario remove_dups "Site" "site" remove_dups_enumerates)).
Defined.

(** C4. A peer name hint resolves to a canonical name exactly when the
    canonical set has a member C such that, case-insensitively, the hint
    starts with C or C starts with the hint, and the resolved name is such
    a member. When nothing matches, or the resolved name is in the failure
    set, the neighbor record leaves the synthesis state as it is. With the
    canonical set [leaf01], the hint leaf01.mgmt.example.com resolves to
    leaf01 and the hint upstream-isp-router to nothing. *)
Theorem name_resolution (names : list string) (unr : gset string) (hint : string) :
  (∀ c, resolve_neighbor names hint = Some c →
        c ∈ names ∧ (ci_starts_with hint c ∨ ci_starts_with c hint))
  ∧ ((∃ c, resolve_neighbor names hint = Some c) ↔
     (∃ c, c ∈ names ∧ (ci_starts_with hint c ∨ ci_starts_with c hint)))
  ∧ (∀ local_dev local_interface st nb,
       hostname nb = hint →
       resolve_neighbor names hint = None
       ∨ (∃ c, resolve_neighbor names hint = Some c ∧ c ∈ unr) →
       process_neighbor names unr local_dev local_interface st nb = st)
  ∧ (∀ set_order, enumerates set_order →
       resolve_neighbor (netbox_device_names set_order ∅ [device_leaf01])
         "leaf01.mgmt.example.com" = Some "leaf01"
       ∧ resolve_neighbor (netbox_device_names set_order ∅ [device_leaf01])
           "upstream-isp-router" = None).
Proof.
  split; [|split; [|split]].
  - intros c [Hc Hm]%resolve_neighbor_Some. by rewrite <- name_matches_ci.
  - split.
    + intros [c [Hc Hm]%resolve_neighbor_Some]. exists c.
      by rewrite <- name_matches_ci.
    + intros (c & Hc & Hm). apply name_matches_ci in Hm.
      destruct (resolve_neighbor names hint) as [x|] eqn:E; [by exists x|].
      rewrite resolve_neighbor_None in E. by rewrite (E c Hc) in Hm.
  - intros local_dev local_interface st nb Hnb H. unfold process_neighbor.
    rewrite Hnb. destruct H as [->|(c & -> & Hc)]; [done|].
    rewrite (bool_decide_eq_true_2 (c ∈ unr)) by done.
    by rewrite orb_true_r.
  - intros set_order Henum.
    assert (∀ x, x ∈ netbox_device_names set_order ∅ [device_leaf01]
                 ↔ x = "leaf01") as Hnames.
    { intros x. unfold netbox_device_names. rewrite (Henum _ x).
      apply list_elem_of_singleton. }
    split.
    + apply resolve_neighbor_unique; [by apply Hnames|done|].
      by intros x ?%Hnames _.
    + apply resolve_neighbor_None. by intros c ->%Hnames.
Qed.

Lemma name_resolution_witness :
  resolve_neighbor ["leaf01"; "spine01"] "LEAF01.lab" = Some "leaf01"
  ∧ "leaf01" ∈ ["leaf01"; "spine01"]
  ∧ (ci_starts_with "LEAF01.lab" "leaf01" ∨ ci_starts_with "leaf01" "LEAF01.lab").
Proof.
  assert (resolve_neighbor ["leaf01"; "spine01"] "LEAF01.lab" = Some "leaf01")
    as H by reflexivity.
  split; [exact H|].
  exact (proj1 (name_resolution ["leaf01"; "spine01"] ∅ "LEAF01.lab") "leaf01" H).
Defined.

(** C7. A neighbor record whose normalized local interface name or
    normalized peer interface name lacks the marker [eth] leaves the
    synthesis state as it is, and the synthesized list holds no link with
    that record's endpoints, whichever name the peer resolves to. *)
Theorem interface_filter (names : list string) (unr : gset string)
    (local_dev local_interface : string) (nb : NeighborInfo) :
  contains "eth" (map_interface node_template_name local_interface) = false
  ∨ contains "eth" (map_interface node_template_name (port nb)) = false →
  (∀ st, process_neighbor names unr local_dev local_interface st nb = st)
  ∧ (∀ set_order devices data c,
       {| local_device := local_dev;
          mapped_local_int := map_interface node_template_name local_interface;
          canonical_neighbor_name := c;
          mapped_neighbor_int := map_interface node_template_name (port nb) |}
       ∉ generate_links set_order unr devices data).
Proof.
  intros H. split.
  - intros st. unfold process_neighbor.
    destruct (resolve_neighbor names (hostname nb)) as [c|]; [|done].
    destruct (bool_decide (c = EmptyString) || bool_decide (c ∈ unr)); [done|].
    destruct H as [-> | ->]; [done|]. by rewrite orb_true_r.
  - intros set_order devices data c (r & _ & Hc)%generate_links_origin.
    apply candidate_link_Some in Hc as (_ & _ & _ & _ & _ & _ & H1 & H2).
    simpl in H1, H2. destruct H as [H|H]; congruence.
Qed.

Lemma interface_filter_witness :
  contains "eth" (map_interface node_template_name "Management1") = false
  ∧ process_neighbor ["A"; "B"] ∅ "A" "Management1" init_state
      {| hostname := "B"; port := "Ethernet1" |} = init_state.
Proof.
  split; [reflexivity|].
  apply (interface_filter ["A"; "B"] ∅ "A" "Management1"
           {| hostname := "B"; port := "Ethernet1" |}).
  left. reflexivity.
Defined.

Section Normalization.

Lemma normalized_map_interface (raw : string) :
  contains "eth" (map_interface node_template_name raw) = true →
  normalized raw (map_interface node_template_name raw).
Proof.
  intros He. split; [done|]. split; [done|]. split.
  - intros Hs. by apply map_interface_slash_free.
  - intros Hs. apply map_interface_passthrough. by rewrite Hs, andb_false_r.
Qed.

End Normalization.

(** C5, as the code has it. Every interface identifier in a link of the
    synthesized list is [map_interface] of a raw interface name of a record
    of the report and contains the marker [eth]. When the raw name begins
    with [Ethernet], the identifier contains no slash; a raw name that does
    not is passed through unchanged. *)
Theorem interface_identifiers (set_order : list string → list string)
    (unr : gset string) (devices : list Device) (data : LinksData) (l : Link) :
  l ∈ generate_links set_order unr devices data →
  ∃ local_dev local_interface nb,
    (local_dev, local_interface, nb) ∈ active_records unr data
    ∧ normalized local_interface (mapped_local_int l)
    ∧ normalized (port nb) (mapped_neighbor_int l).
Proof.
  intros ([[L li] nb] & Hr & Hc)%generate_links_origin.
  apply candidate_link_Some in Hc as (_ & _ & _ & _ & H1 & H2 & H3 & H4).
  simpl in *. exists L, li, nb. split; [done|].
  rewrite H1 in H3 |- *. rewrite H2 in H4 |- *.
  split; by apply normalized_map_interface.
Qed.

Lemma slash_report_links :
  generate_links remove_dups ∅ [device_A; device_B] slash_report
  = [{| local_device := "A"; mapped_local_int := "eth1";
        canonical_neighbor_name := "B"; mapped_neighbor_int := "eth1/2" |}].
Proof. by vm_compute. Qed.

(** A peer port name that carries the marker without the physical-port
    prefix keeps its slash. *)
Lemma slash_survives :
  ∃ l, l ∈ generate_links remove_dups ∅ [device_A; device_B] slash_report
       ∧ contains "/" (mapped_neighbor_int l) = true
       ∧ links (generate_topology_file remove_dups ∅ [device_A; device_B]
                  slash_report "Site" "site") = [("A:eth1", "B:eth1/2")].
Proof.
  eexists. split; [|split].
  - rewrite slash_report_links. apply list_elem_of_singleton. reflexivity.
  - reflexivity.
  - by vm_compute.
Qed.

Lemma interface_identifiers_witness :
  ∃ local_dev local_interface nb,
    (local_dev, local_interface, nb) ∈ active_records ∅ slash_report
    ∧ normalized local_interface "eth1"
    ∧ normalized (port nb) "eth1/2".
Proof.
  apply (interface_identifiers remove_dups ∅ [device_A; device_B] slash_report
           {| local_device := "A"; mapped_local_int := "eth1";
              canonical_neighbor_name := "B"; mapped_neighbor_int := "eth1/2" |}).
  rewrite slash_report_links. apply list_elem_of_singleton. reflexivity.
Defined.

Section FailureSetFacts.

Lemma mark_unreachable_known (n : string) (w : World) :
  n ∈ unreachable_devices w → mark_unreachable n w = w.
Proof.
  intros Hn. destruct w as [u f]. unfold mark_unreachable. simpl in *.
  f_equal. apply set_eq. intros x. rewrite elem_of_union, elem_of_singleton.
  split; [intros [->|]; done|auto].
Qed.

Lemma mark_unreachable_grows (n : string) (w : World) :
  unreachable_devices w ⊆ unreachable_devices (mark_unreachable n w).
Proof. simpl. apply union_subseteq_r. Qed.

Lemma step_grows (st : RunState) (o : Op) :
  unreachable_devices (world st) ⊆ unreachable_devices (world (step st o)).
Proof.
  destruct o as [d ok|d dir fetched|d dir version|d lldp]; simpl.
  - unfold test_device_connectivity.
    destruct (primary_ip d); [destruct ok|]; simpl;
      try done; apply union_subseteq_r.
  - unfold get_device_config. case_bool_decide; [done|].
    destruct (primary_ip d); [|done].
    destruct fetched; simpl; [done|apply union_subseteq_r].
  - unfold get_device_info. case_bool_decide; [done|].
    destruct (primary_ip d); [|done].
    destruct (version ≫= scan_version) as [[??]|]; simpl;
      [done|apply union_subseteq_r].
  - destruct (primary_ip d); [|done]. simpl.
    unfold get_lldp_neighbors_napalm. case_bool_decide; [done|].
    destruct lldp; simpl; [done|apply union_subseteq_r].
Qed.

(** An operation on a device of the failure set changes nothing. *)
Lemma step_skips (st : RunState) (o : Op) :
  name (op_device o) ∈ unreachable_devices (world st) → step st o = st.
Proof.
  intros Hn. destruct st as [w al].
  destruct o as [d ok|d dir fetched|d dir version|d lldp]; simpl in *.
  - unfold test_device_connectivity.
    destruct (primary_ip d); [destruct ok|]; simpl;
      by rewrite ?mark_unreachable_known.
  - unfold get_device_config. by rewrite bool_decide_eq_true_2.
  - unfold get_device_info. by rewrite bool_decide_eq_true_2.
  - destruct (primary_ip d); [|done].
    unfold get_lldp_neighbors_napalm. by rewrite bool_decide_eq_true_2.
Qed.

Lemma run_keeps (schedule : list Op) (st : RunState) (n : string) :
  n ∈ unreachable_devices (world st) →
  n ∈ unreachable_devices (world (run st schedule)).
Proof.
  revert st. induction schedule as [|o schedule IH]; intros st Hn; [done|].
  simpl. apply IH. by apply (step_grows st o).
Qed.

Lemma run_skips (schedule : list Op) (st : RunState) (n : string) :
  n ∈ unreachable_devices (world st) →
  run st schedule = run st (filter (λ o, name (op_device o) ≠ n) schedule).
Proof.
  revert st. induction schedule as [|o schedule IH]; intros st Hn; [done|].
  rewrite filter_cons. case_decide as Ho.
  - simpl. apply IH. by apply (step_grows st o).
  - unfold run at 1. simpl.
    rewrite step_skips by (by rewrite Ho). by apply IH.
Qed.

End FailureSetFacts.

(** C2. Once a device name is in the failure set: [get_device_config] and
    [get_device_info] return with the files as they were,
    [get_lldp_neighbors_napalm] returns nothing, no synthesized link has
    the name as an endpoint, no operation takes a name out of the failure
    set, and in every later schedule of polling operations the name stays
    in the set while the operations on it change nothing at all. *)
Theorem sticky_failure (n : string) :
  (∀ d dir fetched w, name d = n → n ∈ unreachable_devices w →
     get_device_config d dir fetched w = (Returned (), w))
  ∧ (∀ d dir version w, name d = n → n ∈ unreachable_devices w →
       get_device_info d dir version w = (Returned (), w))
  ∧ (∀ lldp w, n ∈ unreachable_devices w →
       get_lldp_neighbors_napalm n lldp w = (None, w))
  ∧ (∀ set_order unr devices data l, n ∈ unr →
       l ∈ generate_links set_order unr devices data →
       local_device l ≠ n ∧ canonical_neighbor_name l ≠ n)
  ∧ (∀ st o, unreachable_devices (world st) ⊆ unreachable_devices (world (step st o)))
  ∧ (∀ st schedule, n ∈ unreachable_devices (world st) →
       n ∈ unreachable_devices (world (run st schedule))
       ∧ run st schedule
         = run st (filter (λ o, name (op_device o) ≠ n) schedule)).
Proof.
  split; [|split; [|split; [|split; [|split]]]].
  - intros d dir fetched w <- Hn. unfold get_device_config.
    by rewrite bool_decide_eq_true_2.
  - intros d dir version w <- Hn. unfold get_device_info.
    by rewrite bool_decide_eq_true_2.
  - intros lldp w Hn. unfold get_lldp_neighbors_napalm.
    by rewrite bool_decide_eq_true_2.
  - intros set_order unr devices data l Hn (r & Hr & Hc)%generate_links_origin.
    apply active_records_elem in Hr.
    apply candidate_link_Some in Hc as (_ & _ & Hu & HL & _).
    rewrite <- HL in Hr. split; intros Heq; [apply Hr|apply Hu]; by rewrite Heq.
  - apply step_grows.
  - intros st schedule Hn. split; [by apply run_keeps|by apply run_skips].
Qed.

Section FieldValueFacts.

Lemma split_nonempty (sep : ascii) (s : string) :
  ∃ h t, split sep s = h :: t.
Proof.
  induction s as [|c s (h & t & IH)]; simpl; [eauto|].
  case_decide; [eauto|]. rewrite IH. eauto.
Qed.

Lemma contains_char_cons (a c : ascii) (s : string) :
  contains (String a EmptyString) (String c s) = false ↔
  a ≠ c ∧ contains (String a EmptyString) s = false.
Proof.
  rewrite contains_cons_false, prefix_char.
  by rewrite bool_decide_eq_false.
Qed.

Lemma split_no_separator (sep : ascii) (s : string) :
  contains (String sep EmptyString) s = false → split sep s = [s].
Proof.
  induction s as [|c s IH]; [done|].
  intros [Hne Hs]%contains_char_cons. simpl.
  rewrite decide_False by done. by rewrite IH.
Qed.

Lemma split_second (sep : ascii) (s : string) :
  split sep s !! 1 = (v ← after_first sep s; head (split sep v)).
Proof.
  induction s as [|c s IH]; [done|]. simpl.
  destruct (split_nonempty sep s) as (h & t & E).
  case_decide; rewrite E in *.
  - simpl. by rewrite E.
  - exact IH.
Qed.

(** The value the code takes is the text after the first separator exactly
    when that text holds no further separator; otherwise it stops at the
    second one. *)
Lemma field_value_single_separator (line v : string) :
  after_first ":" line = Some v → contains ":" v = false →
  field_value line = spec_field_value line.
Proof.
  intros Hv Hc. unfold field_value, spec_field_value.
  rewrite split_second, Hv. simpl. by rewrite split_no_separator.
Qed.

End FieldValueFacts.

(** C3, evaluated. On a [show version] text whose system MAC address is
    written with colons, the value after the first separator is the whole
    address, and [get_device_info] writes only its first group. *)
Theorem identity_value_truncated :
  spec_field_value "System MAC address:  00:1c:73:aa:bb:cc"
  = Some "00:1c:73:aa:bb:cc"
  ∧ field_value "System MAC address:  00:1c:73:aa:bb:cc" = Some "00"
  ∧ scan_version version_text = Some ("JPE1234", "00")
  ∧ files (get_device_info device_A "site/nodes/sn" (Some version_text)
             empty_world).2 !! "site/nodes/sn/A.txt"
    = Some ("SERIALNUMBER=JPE1234" +:+ newline
            +:+ "SYSTEMMACADDR=00" +:+ newline).
Proof. by vm_compute. Qed.

(** [destroy_containerlab] reports a missing tool and a failed tool and
    returns; [main] of the cleanup program then runs to its end. *)
Lemma destroy_swallows_tool_errors :
  (Cleanup.destroy_containerlab "site/site.clab.yml" true ToolMissing).2
  = Returned ()
  ∧ (Cleanup.destroy_containerlab "site/site.clab.yml" true
       (ToolFailed "no such lab")).2 = Returned ()
  ∧ exit_status (Cleanup.main "Site" true ToolMissing).2 = 0.
Proof. by vm_compute. Qed.

(** C8, as the code has it. In [deploy_containerlab] a missing tool and a
    non-zero exit status are reported with different messages and raised
    again as different exceptions; every exception of the deploy or the
    inspect command leaves the call, and [main] after it, so that the run
    ends with a non-zero status. In [destroy_containerlab] the two
    conditions are reported with different messages and the call returns:
    nothing is raised and the cleanup program runs to its end. *)
Theorem tooling_errors (topology_file site_name stderr : string)
    (failed other : ToolRun) (e : Exn) :
  tool_exception failed = Some e →
  (deploy_containerlab topology_file failed other).2 = Raised e
  ∧ (deploy_containerlab topology_file Completed failed).2 = Raised e
  ∧ (main_deploy topology_file failed other).2 = Raised e
  ∧ exit_status (main_deploy topology_file failed other).2 = 1
  ∧ (deploy_containerlab topology_file ToolMissing other).1
    ≠ (deploy_containerlab topology_file (ToolFailed stderr) other).1
  ∧ (deploy_containerlab topology_file ToolMissing other).2
    ≠ (deploy_containerlab topology_file (ToolFailed stderr) other).2
  ∧ (Cleanup.destroy_containerlab topology_file true failed).2 = Returned ()
  ∧ (Cleanup.destroy_containerlab topology_file true ToolMissing).1
    ≠ (Cleanup.destroy_containerlab topology_file true (ToolFailed stderr)).1
  ∧ exit_status (Cleanup.main site_name true failed).2 = 0.
Proof.
  intros He.
  assert ((deploy_handler e).2 = Raised e) as Hh by (by destruct e).
  assert ((deploy_containerlab topology_file failed other).2 = Raised e) as Hd.
  { unfold deploy_containerlab. by rewrite He. }
  assert ((Cleanup.destroy_containerlab topology_file true failed).2 = Returned ())
    as Hc.
  { unfold Cleanup.destroy_containerlab. rewrite He. by destruct e. }
  repeat split; try done.
  - unfold deploy_containerlab. simpl tool_exception. cbv iota. by rewrite He.
  - unfold main_deploy. by rewrite Hd.
  - unfold main_deploy. by rewrite Hd.
  - unfold Cleanup.main.
    by destruct (Cleanup.destroy_containerlab _ true failed) as [p []];
      simplify_eq/=.
Qed.

Lemma tooling_errors_witness :
  tool_exception (ToolFailed "exit status 1") = Some (CalledProcessError "exit status 1")
  ∧ (deploy_containerlab "site/site.clab.yml" (ToolFailed "exit status 1") Completed).2
    = Raised (CalledProcessError "exit status 1").
Proof.
  split; [reflexivity|].
  apply (tooling_errors "site/site.clab.yml" "Site" "exit status 1"
           (ToolFailed "exit status 1") Completed
           (CalledProcessError "exit status 1")).
  reflexivity.
Defined.

(** C9. For every site name, the path under which [generate_topology_file]
    writes the topology, called as [main] calls it with the lower-cased
    site name as lab directory, is the path the cleanup program computes
    for that site name and hands to [destroy_containerlab]; the two
    programs also agree on the lab directory. *)
Theorem cleanup_targets_generated_file (set_order : list string → list string)
    (unr : gset string) (devices : list Device) (data : LinksData)
    (site_name : string) :
  main_lab_dir site_name = Cleanup.lab_dir site_name
  ∧ topology_filepath
      (generate_topology_file set_order unr devices data site_name
         (main_lab_dir site_name))
    = Cleanup.topology_file site_name.
Proof.
  split; [reflexivity|].
  unfold Cleanup.topology_file, Cleanup.lab_dir, main_lab_dir.
  simpl topology_filepath. reflexivity.
Qed.

Lemma sticky_failure_witness :
  "B" ∈ unreachable_devices (mark_unreachable "B" empty_world)
  ∧ get_device_config device_B "site/nodes/configs" (Some "hostname B")
      (mark_unreachable "B" empty_world)
    = (Returned (), mark_unreachable "B" empty_world).
Proof.
  assert ("B" ∈ unreachable_devices (mark_unreachable "B" empty_world)) as H.
  { apply elem_of_union_l, elem_of_singleton. reflexivity. }
  split; [exact H|].
  apply (proj1 (sticky_failure "B")); [reflexivity|exact H].
Defined.

Lemma dedup_invariant_witness :
  length (filter (λ e, endpoint_set e = endpoint_set ("A:eth2", "B:eth1"))
            (links (generate_topology_file remove_dups ∅ [device_A; device_B]
                      [report_of_A; report_of_B] "Site" "site"))) = 1.
Proof.
  apply (proj2 (dedup_invariant remove_dups ∅ [device_A; device_B]
                  [report_of_A; report_of_B] "Site" "site")
           "A" "Ethernet2" "B" "Ethernet1" "A" "B").
  - apply list_elem_of_In. left. reflexivity.
  - apply list_elem_of_In. right. left. reflexivity.
  - reflexivity.
  - reflexivity.
  - discriminate.
  - discriminate.
  - apply not_elem_of_empty.
  - apply not_elem_of_empty.
  - reflexivity.
  - reflexivity.
Defined.

(** * Further properties of the two programs *)

Set Warnings "-clear-no-such-hyp".

(** ** Polling operations *)
Section PollingFacts.

Lemma dict_set_twice (k : string) (v : NeighborsDict) (d : LinksData) :
  dict_set k v (dict_set k v d) = dict_set k v d.
Proof.
  induction d as [|[k' v'] d IH]; simpl.
  - by rewrite bool_decide_eq_true_2.
  - case_bool_decide as Hk; simpl.
    + by rewrite bool_decide_eq_true_2.
    + rewrite bool_decide_eq_false_2 by done. by rewrite IH.
Qed.

Lemma mark_unreachable_elem (n : string) (w : World) :
  n ∈ unreachable_devices (mark_unreachable n w).
Proof. simpl. apply elem_of_union_l, elem_of_singleton. done. Qed.

Lemma write_file_twice (p c : string) (w : World) :
  write_file p c (write_file p c w) = write_file p c w.
Proof. unfold write_file. simpl. by rewrite insert_insert_eq. Qed.

End PollingFacts.

(** X1. [test_device_connectivity] answers [True] exactly for a device with
    a primary IP whose session opened; then nothing changes. In every
    other case, and always for a device without a primary IP whatever the
    session would do, the device is in the failure set afterwards and the
    files are untouched. *)
Theorem probe_classification (d : Device) (session_ok : bool) (w : World) :
  ((test_device_connectivity d session_ok w).1 = true
     ↔ is_Some (primary_ip d) ∧ session_ok = true)
  ∧ ((test_device_connectivity d session_ok w).1 = true →
       (test_device_connectivity d session_ok w).2 = w)
  ∧ ((test_device_connectivity d session_ok w).1 = false →
       name d ∈ unreachable_devices (test_device_connectivity d session_ok w).2
       ∧ files (test_device_connectivity d session_ok w).2 = files w)
  ∧ (primary_ip d = None →
       test_device_connectivity d session_ok w
       = (false, mark_unreachable (name d) w)).
Proof.
  unfold test_device_connectivity.
  destruct (primary_ip d) as [ip|] eqn:Hip; [destruct session_ok|]; simpl.
  - split; [|done]. split; [by eauto|done].
  - split; [|split; [done|split; [|done]]].
    + split; [done|]. by intros [_ ?].
    + intros _. split; [|done]. apply elem_of_union_l, elem_of_singleton. done.
  - split; [|split; [done|split; [|done]]].
    + split; [done|]. intros [[? [=]] _].
    + intros _. split; [|done]. apply elem_of_union_l, elem_of_singleton. done.
Qed.

Lemma probe_classification_witness :
  (test_device_connectivity device_A true empty_world).1 = true
  ∧ (test_device_connectivity device_A true empty_world).2 = empty_world.
Proof.
  split; [reflexivity|].
  apply (proj1 (proj2 (probe_classification device_A true empty_world))).
  reflexivity.
Defined.

(** X2. Every polling operation is idempotent: repeating a call with the
    same session outcome leaves the failure set, the files and the
    collected neighbor data as the first call left them. *)
Theorem step_idempotent (st : RunState) (o : Op) :
  step (step st o) o = step st o.
Proof.
  destruct (decide (name (op_device o) ∈ unreachable_devices (world st))) as [Hin|Hin].
  { rewrite (step_skips st o Hin). by apply step_skips. }
  destruct st as [w al].
  destruct o as [d ok|d dir fetched|d dir version|d lldp]; simpl in *.
  - f_equal. unfold test_device_connectivity.
    destruct (primary_ip d); [destruct ok|]; simpl; try done;
      apply mark_unreachable_known, mark_unreachable_elem.
  - f_equal. unfold get_device_config.
    rewrite (bool_decide_eq_false_2 (name d ∈ unreachable_devices w)) by done.
    destruct (primary_ip d); [destruct fetched as [c|]|]; simpl.
    + rewrite bool_decide_eq_false_2 by done. apply write_file_twice.
    + by rewrite bool_decide_eq_true_2 by apply mark_unreachable_elem.
    + by rewrite bool_decide_eq_false_2.
  - f_equal. unfold get_device_info.
    rewrite (bool_decide_eq_false_2 (name d ∈ unreachable_devices w)) by done.
    destruct (primary_ip d);
      [destruct (version ≫= scan_version) as [[sn mac]|]|]; simpl.
    + rewrite bool_decide_eq_false_2 by done. apply write_file_twice.
    + by rewrite bool_decide_eq_true_2 by apply mark_unreachable_elem.
    + by rewrite bool_decide_eq_false_2.
  - destruct (primary_ip d) eqn:Hip; simpl; rewrite ?Hip; [|done].
    unfold get_lldp_neighbors_napalm.
    rewrite (bool_decide_eq_false_2 (name d ∈ unreachable_devices w)) by done.
    destruct lldp as [[|e more]|]; simpl.
    + by rewrite bool_decide_eq_false_2.
    + rewrite bool_decide_eq_false_2 by done. simpl.
      by rewrite dict_set_twice.
    + by rewrite bool_decide_eq_true_2 by apply mark_unreachable_elem.
Qed.

(** ** Scanning the identity text *)
Section ScanFacts.

Lemma field_value_no_separator (line : string) :
  contains ":" line = false → field_value line = None.
Proof.
  intros H. unfold field_value. by rewrite split_no_separator.
Qed.

Lemma after_first_append (label v : string) :
  contains ":" label = false →
  after_first ":" (label +:+ ":" +:+ v) = Some v.
Proof.
  induction label as [|c label IH]; [done|].
  intros [Hc Hl]%contains_char_cons. rewrite append_cons. simpl.
  rewrite decide_False by done. by apply IH.
Qed.

Lemma scan_line_unmatched (ids : string * string) (line : string) :
  search_ignorecase "serial number" line = false →
  search_ignorecase "system mac address" line = false →
  scan_line (Some ids) line = Some ids.
Proof. intros H1 H2. unfold scan_line. simpl. rewrite H1, H2. by destruct ids. Qed.

Lemma scan_line_index_error (ids : string * string) (line : string) :
  search_ignorecase "serial number" line = true
  ∨ search_ignorecase "system mac address" line = true →
  field_value line = None →
  scan_line (Some ids) line = None.
Proof.
  intros H Hf. unfold scan_line. simpl. rewrite Hf.
  destruct (search_ignorecase "serial number" line); [done|].
  destruct H as [?| ->]; done.
Qed.

Lemma foldl_scan_line_cons (acc : option (string * string)) (x : string)
    (l : list string) :
  foldl scan_line acc (x :: l) = foldl scan_line (scan_line acc x) l.
Proof. reflexivity. Qed.

Lemma foldl_scan_line_None (l : list string) : foldl scan_line None l = None.
Proof. induction l; [done|]. by rewrite foldl_scan_line_cons. Qed.

Lemma foldl_scan_line_error (l : list string) (line : string)
    (acc : option (string * string)) :
  line ∈ l →
  (∀ ids, scan_line (Some ids) line = None) →
  foldl scan_line acc l = None.
Proof.
  intros Hin Hfail. revert acc.
  induction l as [|x l IH]; intros acc; [by apply elem_of_nil in Hin|].
  rewrite foldl_scan_line_cons.
  apply elem_of_cons in Hin as [<-|Hin]; [|by apply IH].
  destruct acc as [ids|]; [rewrite Hfail|]; apply foldl_scan_line_None.
Qed.

Lemma foldl_scan_line_unmatched (l : list string) (ids : string * string) :
  (∀ line, line ∈ l →
     search_ignorecase "serial number" line = false
     ∧ search_ignorecase "system mac address" line = false) →
  foldl scan_line (Some ids) l = Some ids.
Proof.
  induction l as [|x l IH]; intros H; [done|]. rewrite foldl_scan_line_cons.
  destruct (H x) as [H1 H2]; [by left|].
  rewrite scan_line_unmatched by done. apply IH.
  intros line Hl. apply H. by right.
Qed.

End ScanFacts.

(** X3. When no line of the [show version] text mentions either label (in
    particular for an empty text), both values stay [UNKNOWN]:
    [get_device_info] still writes the identity file, with
    [SERIALNUMBER=UNKNOWN] and [SYSTEMMACADDR=UNKNOWN], and does not mark
    the device. *)
Theorem identity_defaults (version_output : string) (d : Device)
    (dir : string) (w : World) :
  (∀ line, line ∈ splitlines version_output →
     search_ignorecase "serial number" line = false
     ∧ search_ignorecase "system mac address" line = false) →
  name d ∉ unreachable_devices w → is_Some (primary_ip d) →
  scan_version version_output = Some ("UNKNOWN", "UNKNOWN")
  ∧ get_device_info d dir (Some version_output) w
    = (Returned (),
       write_file (sn_filename dir d)
         ("SERIALNUMBER=UNKNOWN" +:+ newline
          +:+ "SYSTEMMACADDR=UNKNOWN" +:+ newline) w).
Proof.
  intros Hlines Hn [ip Hip].
  assert (scan_version version_output = Some ("UNKNOWN", "UNKNOWN")) as Hs.
  { unfold scan_version. by apply foldl_scan_line_unmatched. }
  split; [done|]. unfold get_device_info.
  rewrite bool_decide_eq_false_2 by done. rewrite Hip. simpl. by rewrite Hs.
Qed.

Lemma identity_defaults_witness :
  scan_version "Arista vEOS" = Some ("UNKNOWN", "UNKNOWN")
  ∧ get_device_info device_A "site/nodes/sn" (Some "Arista vEOS") empty_world
    = (Returned (),
       write_file (sn_filename "site/nodes/sn" device_A)
         ("SERIALNUMBER=UNKNOWN" +:+ newline
          +:+ "SYSTEMMACADDR=UNKNOWN" +:+ newline) empty_world).
Proof.
  apply (identity_defaults "Arista vEOS" device_A "site/nodes/sn" empty_world).
  - intros line Hl. apply list_elem_of_singleton in Hl. subst line.
    split; reflexivity.
  - apply not_elem_of_empty.
  - exists "192.0.2.1/24". reflexivity.
Defined.

(** X4. A line that mentions one of the two labels but holds no [:] makes
    the index [1] fail: the scan has no result, and [get_device_info]
    writes no file and puts the device into the failure set although its
    session answered. *)
Theorem identity_index_error (version_output line : string) (d : Device)
    (dir : string) (w : World) :
  line ∈ splitlines version_output →
  search_ignorecase "serial number" line = true
  ∨ search_ignorecase "system mac address" line = true →
  contains ":" line = false →
  name d ∉ unreachable_devices w → is_Some (primary_ip d) →
  scan_version version_output = None
  ∧ get_device_info d dir (Some version_output) w
    = (Returned (), mark_unreachable (name d) w).
Proof.
  intros Hin Hm Hc Hn [ip Hip].
  assert (scan_version version_output = None) as Hs.
  { unfold scan_version. apply (foldl_scan_line_error _ line); [done|].
    intros ids. apply scan_line_index_error; [done|].
    by apply field_value_no_separator. }
  split; [done|]. unfold get_device_info.
  rewrite bool_decide_eq_false_2 by done. rewrite Hip. simpl. by rewrite Hs.
Qed.

Lemma identity_index_error_witness :
  scan_version "Serial number JPE1234" = None
  ∧ get_device_info device_A "site/nodes/sn" (Some "Serial number JPE1234")
      empty_world
    = (Returned (), mark_unreachable "A" empty_world).
Proof.
  apply (identity_index_error "Serial number JPE1234" "Serial number JPE1234"
           device_A "site/nodes/sn" empty_world).
  - apply list_elem_of_singleton. reflexivity.
  - left. reflexivity.
  - reflexivity.
  - apply not_elem_of_empty.
  - exists "192.0.2.1/24". reflexivity.
Defined.

(** X5. On a line made of a label, one [:] and a value, where neither the
    label nor the value holds a further [:], the value taken is the value
    text without its surrounding whitespace. *)
Theorem field_value_label_value (label v : string) :
  contains ":" label = false → contains ":" v = false →
  field_value (label +:+ ":" +:+ v) = Some (strip v).
Proof.
  intros Hl Hv. unfold field_value.
  rewrite split_second, after_first_append by done. simpl.
  by rewrite split_no_separator.
Qed.

Lemma field_value_label_value_witness :
  field_value ("Serial number" +:+ ":" +:+ "       JPE14080457 ")
  = Some "JPE14080457".
Proof.
  apply (field_value_label_value "Serial number" "       JPE14080457 ");
    reflexivity.
Defined.

(** ** The failure set along a schedule *)
Section FailureBoundFacts.

Lemma step_adds_only (st : RunState) (o : Op) :
  unreachable_devices (world (step st o))
  ⊆ {[ name (op_device o) ]} ∪ unreachable_devices (world st).
Proof.
  destruct o as [d ok|d dir fetched|d dir version|d lldp]; simpl.
  - unfold test_device_connectivity.
    destruct (primary_ip d); [destruct ok|]; simpl;
      solve [done | apply union_subseteq_r].
  - unfold get_device_config. case_bool_decide; [apply union_subseteq_r|].
    destruct (primary_ip d); [destruct fetched|]; simpl;
      solve [done | apply union_subseteq_r].
  - unfold get_device_info. case_bool_decide; [apply union_subseteq_r|].
    destruct (primary_ip d);
      [destruct (version ≫= scan_version) as [[??]|]|]; simpl;
      solve [done | apply union_subseteq_r].
  - destruct (primary_ip d); [|apply union_subseteq_r]. simpl.
    unfold get_lldp_neighbors_napalm. case_bool_decide; [apply union_subseteq_r|].
    destruct lldp; simpl; solve [done | apply union_subseteq_r].
Qed.

Lemma step_other_device (st : RunState) (o : Op) (n : string) :
  name (op_device o) ≠ n →
  n ∈ unreachable_devices (world (step st o)) →
  n ∈ unreachable_devices (world st).
Proof.
  intros Hne Hn. apply step_adds_only in Hn.
  apply elem_of_union in Hn as [Hn|Hn]; [|done].
  apply elem_of_singleton in Hn. by subst.
Qed.

(** Devices the failure set does not hold are counted by the filter. *)
Lemma failed_count (unr : gset string) (devices : list Device) :
  NoDup (name <$> devices) →
  size (unr ∩ list_to_set (name <$> devices))
  = length (filter (λ d, ¬ (name d ∉ unr)) devices).
Proof.
  induction devices as [|d ds IH]; intros Hnd.
  - simpl. rewrite intersection_empty_r_L. apply size_empty.
  - rewrite fmap_cons in Hnd. apply NoDup_cons in Hnd as [Hd Hnd].
    rewrite fmap_cons, list_to_set_cons, filter_cons.
    destruct (decide (name d ∈ unr)) as [Hin|Hin].
    + rewrite decide_True by (by intros H; apply H).
      simpl. rewrite <- IH by done.
      assert (unr ∩ ({[name d]} ∪ list_to_set (name <$> ds))
              = {[name d]} ∪ (unr ∩ list_to_set (name <$> ds)) :> gset string)
        as -> by set_solver.
      rewrite size_union, size_singleton; [done|].
      apply disjoint_singleton_l. rewrite elem_of_intersection, elem_of_list_to_set.
      by intros [_ ?].
    + rewrite decide_False by (by intros H; apply H).
      rewrite <- IH by done. f_equal. set_solver.
Qed.

End FailureBoundFacts.

(** X6. Along any schedule of polling operations the failure set only
    takes up names of devices the schedule operates on: started empty, it
    holds names of polled devices only. *)
Theorem failure_set_bound (schedule : list Op) (st : RunState) :
  unreachable_devices (world (run st schedule))
  ⊆ unreachable_devices (world st)
    ∪ list_to_set ((λ o, name (op_device o)) <$> schedule).
Proof.
  revert st. induction schedule as [|o schedule IH]; intros st.
  - simpl. apply union_subseteq_l.
  - unfold run. simpl. fold (run (step st o) schedule).
    etrans; [apply IH|]. pose proof (step_adds_only st o) as Hs.
    set_solver.
Qed.

(** X7. When the device names are pairwise different and the failure set
    holds device names only, the count reported as reachable,
    [len(devices) - len(unreachable_devices)], is the number of devices
    that the later stages keep. *)
Theorem reachable_count_exact (devices : list Device) (unr : gset string) :
  NoDup (name <$> devices) →
  unr ⊆ list_to_set (name <$> devices) →
  reachable_count devices unr
  = Z.of_nat (length (reachable_devices unr devices)).
Proof.
  intros Hnd Hsub. unfold reachable_count, reachable_devices.
  pose proof (filter_app_complement (λ d, name d ∉ unr) devices) as Hp.
  apply Permutation_length in Hp. rewrite length_app in Hp.
  pose proof (failed_count unr devices Hnd) as Hc.
  assert (unr ∩ list_to_set (name <$> devices) = unr) as Hu by set_solver.
  rewrite Hu in Hc. lia.
Qed.

Lemma reachable_count_exact_witness :
  reachable_count [device_A; device_B] {["B"]}
  = Z.of_nat (length (reachable_devices {["B"]} [device_A; device_B])).
Proof.
  apply (reachable_count_exact [device_A; device_B] {["B"]}).
  - apply NoDup_cons. split; [|apply NoDup_singleton].
    intros H. apply list_elem_of_singleton in H. discriminate H.
  - intros x Hx. apply elem_of_singleton in Hx. subst x.
    apply elem_of_list_to_set. right. left.
Defined.


(** ** The fan-in of neighbor data *)
Section FanInFacts.

Lemma dict_set_cons (k : string) (v : NeighborsDict) (k' : string)
    (v' : NeighborsDict) (d : LinksData) :
  dict_set k v ((k', v') :: d)
  = if bool_decide (k' = k) then (k, v) :: d else (k', v') :: dict_set k v d.
Proof. reflexivity. Qed.

Lemma dict_set_keys (k : string) (v : NeighborsDict) (d : LinksData) :
  (dict_set k v d).*1 = if bool_decide (k ∈ d.*1) then d.*1 else d.*1 ++ [k].
Proof.
  induction d as [|[k' v'] d IH]; [done|]. rewrite dict_set_cons.
  destruct (decide (k' = k)) as [->|Hk].
  - rewrite bool_decide_eq_true_2 by done. rewrite !fmap_cons. simpl.
    rewrite bool_decide_eq_true_2; [done|by left].
  - rewrite bool_decide_eq_false_2 by done. rewrite !fmap_cons, IH. simpl.
    destruct (decide (k ∈ d.*1)) as [Hin|Hin].
    + rewrite !bool_decide_eq_true_2; [done|by right|done].
    + rewrite !bool_decide_eq_false_2; [done| |done].
      rewrite not_elem_of_cons. auto.
Qed.

Lemma dict_set_NoDup (k : string) (v : NeighborsDict) (d : LinksData) :
  NoDup d.*1 → NoDup (dict_set k v d).*1.
Proof.
  intros Hnd. rewrite dict_set_keys. case_bool_decide as Hin; [done|].
  apply NoDup_app. split; [done|]. split; [|apply NoDup_singleton].
  intros x Hx ->%list_elem_of_singleton. done.
Qed.

Lemma dict_set_elem (k : string) (v : NeighborsDict) (d : LinksData)
    (e : string * NeighborsDict) :
  e ∈ dict_set k v d → e = (k, v) ∨ e ∈ d.
Proof.
  induction d as [|[k' v'] d IH]; simpl.
  - intros ->%list_elem_of_singleton. by left.
  - case_bool_decide.
    + intros [->|?]%elem_of_cons; [by left|]. right. by right.
    + intros [->|[->|?]%IH]%elem_of_cons; [right; by left|by left|].
      right. by right.
Qed.

Lemma dict_get_set (k : string) (v : NeighborsDict) (d : LinksData) :
  dict_get k (dict_set k v d) = Some v.
Proof.
  unfold dict_get. induction d as [|[k' v'] d IH]; simpl.
  - by rewrite bool_decide_eq_true_2.
  - case_bool_decide as Hk; simpl.
    + by rewrite bool_decide_eq_true_2.
    + by rewrite bool_decide_eq_false_2.
Qed.

Lemma dict_get_set_ne (k k' : string) (v : NeighborsDict) (d : LinksData) :
  k' ≠ k → dict_get k' (dict_set k v d) = dict_get k' d.
Proof.
  intros Hne. unfold dict_get. induction d as [|[k0 v0] d IH]; simpl.
  - by rewrite bool_decide_eq_false_2.
  - destruct (decide (k0 = k)) as [->|Hk].
    + rewrite bool_decide_eq_true_2 by done. simpl.
      by rewrite !bool_decide_eq_false_2 by done.
    + rewrite bool_decide_eq_false_2 by done. simpl.
      destruct (bool_decide (k0 = k')); [done|]. exact IH.
Qed.

Lemma step_all_links (st : RunState) (o : Op) :
  all_links (step st o) = all_links st
  ∨ ∃ d e more,
      o = FetchLldp d (Some (e :: more))
      ∧ is_Some (primary_ip d)
      ∧ (name d ∉ unreachable_devices (world st))
      ∧ all_links (step st o) = dict_set (name d) (e :: more) (all_links st).
Proof.
  destruct o as [d ok|d dir fetched|d dir version|d lldp]; simpl; try by left.
  destruct (primary_ip d) eqn:Hip; [|by left]. simpl.
  unfold get_lldp_neighbors_napalm. case_bool_decide as Hin; [by left|].
  destruct lldp as [[|e more]|]; simpl; try by left.
  right. exists d, e, more. rewrite Hip. eauto.
Qed.

End FanInFacts.

(** X8. The neighbor map that [main] collects holds at most one entry per
    device name, and every entry that a schedule adds is the non-empty
    answer of a neighbor query on a device of that name with a primary IP:
    an empty answer and a failed query leave no entry. *)
Theorem fan_in_invariant (schedule : list Op) (st : RunState) :
  NoDup (all_links st).*1 →
  NoDup (all_links (run st schedule)).*1
  ∧ ∀ k v, (k, v) ∈ all_links (run st schedule) →
      (k, v) ∈ all_links st
      ∨ (v ≠ [] ∧ ∃ d, FetchLldp d (Some v) ∈ schedule
                      ∧ name d = k ∧ is_Some (primary_ip d)).
Proof.
  revert st. induction schedule as [|o schedule IH]; intros st Hnd.
  - split; [done|]. intros k v H. by left.
  - unfold run. simpl. fold (run (step st o) schedule).
    destruct (step_all_links st o) as [Heq|(d & e & more & -> & Hip & Hn & Heq)].
    + destruct (IH (step st o)) as [H1 H2]; [by rewrite Heq|].
      split; [done|]. intros k v [Hin|(Hv & d & Hd & Hk & Hip)]%H2.
      * left. by rewrite <- Heq.
      * right. split; [done|]. exists d. split; [by right|done].
    + destruct (IH (step st (FetchLldp d (Some (e :: more))))) as [H1 H2].
      { rewrite Heq. by apply dict_set_NoDup. }
      split; [done|]. intros k v [Hin|(Hv & d' & Hd & Hk & Hip')]%H2.
      * rewrite Heq in Hin. apply dict_set_elem in Hin as [[= -> ->]|Hin].
        -- right. split; [done|]. exists d. split; [by left|done].
        -- by left.
      * right. split; [done|]. exists d'. split; [by right|done].
Qed.

Lemma fan_in_invariant_witness :
  NoDup (all_links (run {| world := empty_world; all_links := [] |}
                      [FetchLldp device_A (Some report_of_A.2);
                       FetchLldp device_B None])).*1.
Proof.
  apply (fan_in_invariant
           [FetchLldp device_A (Some report_of_A.2); FetchLldp device_B None]
           {| world := empty_world; all_links := [] |}).
  apply NoDup_nil_2.
Defined.

(** X9. A neighbor answer reaches the synthesis: when a schedule queries a
    device with a primary IP, the answer is not empty, every neighbor query
    of the schedule on that device name brings the same answer, and the
    device is outside the failure set in the end, then the collected map
    holds that answer under the device's name. *)
Theorem fan_in_complete (schedule : list Op) (st : RunState) (d : Device)
    (v : NeighborsDict) :
  FetchLldp d (Some v) ∈ schedule →
  v ≠ [] → is_Some (primary_ip d) →
  (∀ d' l', FetchLldp d' l' ∈ schedule → name d' = name d →
     is_Some (primary_ip d') → l' = Some v) →
  name d ∉ unreachable_devices (world (run st schedule)) →
  dict_get (name d) (all_links (run st schedule)) = Some v.
Proof.
  intros Hin Hv Hip Hsame Hn.
  assert (∀ st, (dict_get (name d) (all_links st) = Some v
                 ∨ FetchLldp d (Some v) ∈ schedule) →
            name d ∉ unreachable_devices (world (run st schedule)) →
            dict_get (name d) (all_links (run st schedule)) = Some v) as Hgen.
  { clear st Hin Hn. induction schedule as [|o schedule IH]; intros st Hor Hn.
    { destruct Hor as [?|?%elem_of_nil]; done. }
    unfold run in *. simpl in *. fold (run (step st o) schedule) in *.
    assert (name d ∉ unreachable_devices (world (step st o))) as Hn1.
    { intros H. apply Hn. by apply run_keeps. }
    assert (name d ∉ unreachable_devices (world st)) as Hn0.
    { intros H. apply Hn1. by apply (step_grows st o). }
    apply IH; [intros d' l' H; apply Hsame; by right| |done].
    destruct Hor as [Hget|[<-|Hin]%elem_of_cons]; [|left|by right].
    - left. destruct (step_all_links st o)
        as [->|(d' & e & more & -> & Hip' & Hn' & ->)]; [done|].
      destruct (decide (name d' = name d)) as [Heq|Hne].
      + rewrite Heq, dict_get_set.
        apply (Hsame d' (Some (e :: more))); [by left|done..].
      + by rewrite dict_get_set_ne.
    - destruct Hip as [ip Hip]. simpl. rewrite Hip. simpl.
      unfold get_lldp_neighbors_napalm.
      rewrite bool_decide_eq_false_2 by done.
      destruct v as [|e more]; [done|]. simpl. apply dict_get_set. }
  apply Hgen; [by right|done].
Qed.

Lemma fan_in_complete_witness :
  dict_get "A"
    (all_links (run {| world := empty_world; all_links := [] |}
                  [FetchLldp device_B None;
                   FetchLldp device_A (Some report_of_A.2)]))
  = Some report_of_A.2.
Proof.
  apply (fan_in_complete
           [FetchLldp device_B None; FetchLldp device_A (Some report_of_A.2)]
           {| world := empty_world; all_links := [] |} device_A report_of_A.2).
  - right. left.
  - discriminate.
  - exists "192.0.2.1/24". reflexivity.
  - intros d' l' H Hname Hip.
    apply elem_of_cons in H as [H|H].
    + injection H as -> ->. discriminate Hname.
    + apply list_elem_of_singleton in H. injection H as -> ->. reflexivity.
  - vm_compute. intros H. discriminate H.
Defined.


Section UnprobedFacts.

Lemma step_without_ip (st : RunState) (o : Op) :
  primary_ip (op_device o) = None →
  (∀ ok, o ≠ Probe (op_device o) ok) →
  step st o = st.
Proof.
  intros Hip Hprobe. destruct st as [w al].
  destruct o as [d ok|d dir fetched|d dir version|d lldp]; simpl in *.
  - by destruct (Hprobe ok).
  - unfold get_device_config. rewrite Hip. by case_bool_decide.
  - unfold get_device_info. rewrite Hip. by case_bool_decide.
  - by rewrite Hip.
Qed.

End UnprobedFacts.

(** X10. A device without a primary IP that is never probed (the
    connectivity test was skipped) is never put into the failure set by
    the harvesting and neighbor stages: the calls on it end in the
    attribute error or are not submitted and change nothing, so the device
    gets no files and no neighbor data and still is among the devices
    handed to the template. *)
Theorem unprobed_device_without_ip (schedule : list Op) (st : RunState)
    (d : Device) (devices : list Device) :
  primary_ip d = None → d ∈ devices →
  name d ∉ unreachable_devices (world st) →
  (∀ o, o ∈ schedule → name (op_device o) = name d →
     primary_ip (op_device o) = None ∧ ∀ ok, o ≠ Probe (op_device o) ok) →
  run st schedule
  = run st (filter (λ o, name (op_device o) ≠ name d) schedule)
  ∧ (name d ∉ unreachable_devices (world (run st schedule)))
  ∧ d ∈ reachable_devices (unreachable_devices (world (run st schedule))) devices.
Proof.
  intros Hip Hd Hn Hops.
  assert (run st schedule
          = run st (filter (λ o, name (op_device o) ≠ name d) schedule)
          ∧ name d ∉ unreachable_devices (world (run st schedule))) as [H1 H2].
  { clear Hd. revert st Hn.
    induction schedule as [|o schedule IH]; intros st Hn; [done|].
    rewrite filter_cons. unfold run at 1 3. simpl.
    fold (run (step st o) schedule).
    destruct (decide (name (op_device o) = name d)) as [Heq|Hne].
    - destruct (Hops o) as [Hip' Hprobe]; [by left|done|].
      rewrite step_without_ip by done.
      rewrite decide_False by (by intros H; apply H).
      apply IH; [|done]. intros o' Ho'. apply Hops. by right.
    - rewrite decide_True by done. simpl.
      fold (run (step st o)
              (filter (λ o, name (op_device o) ≠ name d) schedule)).
      apply IH; [intros o' Ho'; apply Hops; by right|].
      intros H. apply Hn. by apply (step_other_device st o). }
  split; [done|]. split; [done|].
  unfold reachable_devices. by apply list_elem_of_filter.
Qed.

Lemma unprobed_device_without_ip_witness :
  {| name := "C"; primary_ip := None |}
  ∈ reachable_devices
      (unreachable_devices
         (world (run {| world := empty_world; all_links := [] |}
                   [FetchConfig {| name := "C"; primary_ip := None |}
                      "site/nodes/configs" (Some "hostname C")])))
      [device_A; {| name := "C"; primary_ip := None |}].
Proof.
  apply (unprobed_device_without_ip
           [FetchConfig {| name := "C"; primary_ip := None |}
              "site/nodes/configs" (Some "hostname C")]
           {| world := empty_world; all_links := [] |}
           {| name := "C"; primary_ip := None |}
           [device_A; {| name := "C"; primary_ip := None |}]).
  - reflexivity.
  - right. left.
  - apply not_elem_of_empty.
  - intros o Ho _. apply list_elem_of_singleton in Ho. subst o.
    split; [reflexivity|]. intros ok H. discriminate H.
Defined.

Section SynthesisInputFacts.

Lemma active_records_filter (unr : gset string) (data : LinksData) :
  active_records unr (filter (λ e, e.1 ∉ unr) data) = active_records unr data.
Proof.
  unfold active_records. induction data as [|[L nd] data IH]; [done|].
  rewrite filter_cons, bind_cons. simpl.
  destruct (decide (L ∉ unr)) as [Hn|Hn].
  - rewrite bind_cons, IH. done.
  - rewrite IH. rewrite bool_decide_eq_true_2; [done|].
    by apply dec_stable.
Qed.

Lemma contains_prefix (sub s : string) :
  String.prefix sub s = true → contains sub s = true.
Proof.
  destruct s as [|c s]; [done|]. simpl. by intros ->.
Qed.

Lemma map_interface_eth_prefix (raw : string) :
  startswith raw "Ethernet" = true →
  startswith (map_interface node_template_name raw) "eth" = true.
Proof.
  intros [r ->]%prefix_split. rewrite map_interface_ethernet by done.
  apply prefix_append.
Qed.

Lemma candidate_link_ethernet (names : list string) (unr : gset string)
    (local_dev local_interface c : string) (nb : NeighborInfo) :
  startswith local_interface "Ethernet" = true →
  startswith (port nb) "Ethernet" = true →
  resolve_neighbor names (hostname nb) = Some c →
  c ≠ EmptyString → c ∉ unr →
  candidate_link names unr (local_dev, local_interface, nb)
  = Some {| local_device := local_dev;
            mapped_local_int := map_interface node_template_name local_interface;
            canonical_neighbor_name := c;
            mapped_neighbor_int := map_interface node_template_name (port nb) |}.
Proof.
  intros Hl Hp Hres Hc Hu. unfold candidate_link. simpl. rewrite Hres.
  rewrite (bool_decide_eq_false_2 _ Hc), (bool_decide_eq_false_2 _ Hu). simpl.
  by rewrite !contains_prefix by by apply map_interface_eth_prefix.
Qed.

End SynthesisInputFacts.

(** X11. Reports of devices that are in the failure set by the time of the
    synthesis are dead weight: dropping them from the neighbor map leaves
    the synthesized links the same. *)
Theorem stale_reports_ignored (set_order : list string → list string)
    (unr : gset string) (devices : list Device) (data : LinksData) :
  generate_links set_order unr devices (filter (λ e, e.1 ∉ unr) data)
  = generate_links set_order unr devices data.
Proof.
  unfold generate_links. rewrite !process_devices_flat.
  by rewrite active_records_filter.
Qed.

(** X12. Under the ceos template every interface name that begins with
    [Ethernet] passes the marker test: its mapped name begins with [eth].
    So a record with two such names, whose peer resolves to a non-empty
    name outside the failure set, always is a candidate link. *)
Theorem ethernet_names_pass (names : list string) (unr : gset string)
    (local_dev local_interface c : string) (nb : NeighborInfo) :
  startswith local_interface "Ethernet" = true →
  startswith (port nb) "Ethernet" = true →
  resolve_neighbor names (hostname nb) = Some c →
  c ≠ EmptyString → c ∉ unr →
  startswith (map_interface node_template_name local_interface) "eth" = true
  ∧ startswith (map_interface node_template_name (port nb)) "eth" = true
  ∧ candidate_link names unr (local_dev, local_interface, nb)
    = Some {| local_device := local_dev;
              mapped_local_int := map_interface node_template_name local_interface;
              canonical_neighbor_name := c;
              mapped_neighbor_int := map_interface node_template_name (port nb) |}.
Proof.
  intros Hl Hp Hres Hc Hu.
  split; [by apply map_interface_eth_prefix|].
  split; [by apply map_interface_eth_prefix|].
  by apply candidate_link_ethernet.
Qed.

Lemma ethernet_names_pass_witness :
  startswith (map_interface node_template_name "Ethernet49/1") "eth" = true.
Proof.
  apply (ethernet_names_pass ["A"; "B"] ∅ "A" "Ethernet49/1" "B"
           {| hostname := "b.lab"; port := "Ethernet3" |}).
  - reflexivity.
  - reflexivity.
  - reflexivity.
  - discriminate.
  - apply not_elem_of_empty.
Defined.

(** X13. An empty peer name is a prefix of every name, so it resolves to
    whichever name the set yields first: with interface names that begin
    with [Ethernet], a neighbor record without a system name becomes a link
    to that device. *)
Theorem empty_hint_resolves_first (c : string) (rest : list string)
    (unr : gset string) (local_dev local_interface peer_port : string) :
  c ≠ EmptyString → c ∉ unr →
  startswith local_interface "Ethernet" = true →
  startswith peer_port "Ethernet" = true →
  resolve_neighbor (c :: rest) EmptyString = Some c
  ∧ final_links
      (process_neighbor (c :: rest) unr local_dev local_interface init_state
         {| hostname := EmptyString; port := peer_port |})
    = [{| local_device := local_dev;
          mapped_local_int := map_interface node_template_name local_interface;
          canonical_neighbor_name := c;
          mapped_neighbor_int := map_interface node_template_name peer_port |}].
Proof.
  intros Hc Hu Hl Hp.
  assert (resolve_neighbor (c :: rest) EmptyString = Some c) as Hres.
  { unfold resolve_neighbor, name_matches, startswith. simpl.
    destruct (lower c); by rewrite ?orb_true_r. }
  split; [done|].
  change (process_neighbor (c :: rest) unr local_dev local_interface init_state
            {| hostname := EmptyString; port := peer_port |})
    with (visit (c :: rest) unr init_state
            (local_dev, local_interface,
             {| hostname := EmptyString; port := peer_port |})).
  rewrite visit_candidate.
  by rewrite (candidate_link_ethernet (c :: rest) unr local_dev local_interface c
                {| hostname := EmptyString; port := peer_port |}).
Qed.

Lemma empty_hint_resolves_first_witness :
  resolve_neighbor ["spine01"; "leaf01"] EmptyString = Some "spine01".
Proof.
  apply (empty_hint_resolves_first "spine01" ["leaf01"] ∅
           "leaf01" "Ethernet1" "Ethernet2").
  - discriminate.
  - apply not_elem_of_empty.
  - reflexivity.
  - reflexivity.
Defined.


Section SynthesisShapeFacts.

Context (names : list string) (unr : gset string).

Lemma visit_extends (rs : list (string * string * NeighborInfo)) (st : SynthState) :
  ∃ ext, final_links (foldl (visit names unr) st rs) = final_links st ++ ext
         ∧ ext `sublist_of` omap (candidate_link names unr) rs.
Proof.
  revert st. induction rs as [|r rs IH]; intros st.
  - exists []. by rewrite app_nil_r.
  - simpl. destruct (IH (visit names unr st r)) as (ext & -> & Hsub).
    rewrite visit_candidate.
    destruct (candidate_link names unr r) as [l|] eqn:Hc; [|by exists ext].
    case_bool_decide.
    + exists ext. split; [done|]. by apply sublist_cons.
    + exists (l :: ext). simpl. rewrite <- app_assoc. split; [done|].
      by apply sublist_skip.
Qed.

Lemma active_records_key (data : LinksData) (r : string * string * NeighborInfo) :
  r ∈ active_records unr data → r.1.1 ∈ data.*1.
Proof.
  unfold active_records. rewrite list_elem_of_bind.
  intros ([L nd] & Hr & Hin). simpl in Hr.
  case_bool_decide; [by apply elem_of_nil in Hr|].
  apply list_elem_of_bind in Hr as (iface & Hr & _).
  apply list_elem_of_bind in Hr as (nb & Hr & _).
  apply list_elem_of_singleton in Hr. subst r. simpl.
  apply list_elem_of_fmap. by exists (L, nd).
Qed.

Lemma omap_length_le {A B : Type} (f : A → option B) (l : list A) :
  length (omap f l) ≤ length l.
Proof.
  induction l as [|x l IH]; [done|]. csimpl. destruct (f x); simpl; lia.
Qed.

End SynthesisShapeFacts.

Section OrderFacts.

Lemma candidate_link_resolve (names1 names2 : list string) (unr : gset string)
    (r : string * string * NeighborInfo) :
  resolve_neighbor names1 (hostname r.2) = resolve_neighbor names2 (hostname r.2) →
  candidate_link names1 unr r = candidate_link names2 unr r.
Proof. intros H. unfold candidate_link. by rewrite H. Qed.

Lemma foldl_visit_ext (names1 names2 : list string) (unr : gset string)
    (rs : list (string * string * NeighborInfo)) (st : SynthState) :
  (∀ r, r ∈ rs → candidate_link names1 unr r = candidate_link names2 unr r) →
  foldl (visit names1 unr) st rs = foldl (visit names2 unr) st rs.
Proof.
  revert st. induction rs as [|r rs IH]; intros st H; [done|]. simpl.
  rewrite (visit_candidate names1), (visit_candidate names2).
  rewrite (H r) by (by left). apply IH. intros r' Hr'. apply H. by right.
Qed.

Lemma resolve_neighbor_same_members (names1 names2 : list string) (hint : string) :
  (∀ x, x ∈ names1 ↔ x ∈ names2) →
  (∀ x y, x ∈ names1 → y ∈ names1 →
     name_matches hint x = true → name_matches hint y = true → x = y) →
  resolve_neighbor names1 hint = resolve_neighbor names2 hint.
Proof.
  intros Hmem Huniq.
  destruct (resolve_neighbor names1 hint) as [c|] eqn:E.
  - apply resolve_neighbor_Some in E as [Hc Hm]. symmetry.
    apply resolve_neighbor_unique; [by apply Hmem|done|].
    intros x Hx Hmx. apply Huniq; [by apply Hmem|done..].
  - symmetry. apply resolve_neighbor_None. intros c Hc.
    rewrite resolve_neighbor_None in E. apply E. by apply Hmem.
Qed.

End OrderFacts.

(** X14. The synthesized links are, in the order of the visit, a sublist
    of the candidate links of the visited records: links come out in the
    order in which their first record is met, and there are never more
    links than surviving records. *)
Theorem links_in_visit_order (set_order : list string → list string)
    (unr : gset string) (devices : list Device) (data : LinksData) :
  generate_links set_order unr devices data
    `sublist_of` omap (candidate_link (netbox_device_names set_order unr devices) unr)
                   (active_records unr data)
  ∧ length (generate_links set_order unr devices data)
    ≤ length (active_records unr data).
Proof.
  unfold generate_links. rewrite process_devices_flat.
  destruct (visit_extends (netbox_device_names set_order unr devices) unr
              (active_records unr data) init_state) as (ext & -> & Hsub).
  simpl. split; [done|].
  etrans; [by apply sublist_length|]. apply omap_length_le.
Qed.

(** X15. No surviving record is lost: for every visited record that passes
    the name and marker tests, the synthesized list holds an entry with the
    same two endpoints as an unordered pair. *)
Theorem candidate_represented (set_order : list string → list string)
    (unr : gset string) (devices : list Device) (data : LinksData)
    (r : string * string * NeighborInfo) (l : Link) :
  r ∈ active_records unr data →
  candidate_link (netbox_device_names set_order unr devices) unr r = Some l →
  ∃ l', l' ∈ generate_links set_order unr devices data
        ∧ endpoint_set (endpoints l') = endpoint_set (endpoints l).
Proof.
  intros Hr Hc. unfold generate_links. rewrite process_devices_flat.
  pose proof (keys_agree_foldl (netbox_device_names set_order unr devices) unr
                (active_records unr data) init_state keys_agree_init) as [Hk _].
  pose proof (candidate_recorded _ _ _ init_state r l Hr Hc) as Hin.
  apply Hk, list_elem_of_fmap in Hin as (l' & Heq & Hl').
  exists l'. split; [done|]. symmetry. by apply link_tuple_endpoint_set.
Qed.

Lemma candidate_represented_witness :
  ∃ l', l' ∈ generate_links remove_dups ∅ [device_A; device_B]
               [report_of_A; report_of_B]
        ∧ endpoint_set (endpoints l')
          = endpoint_set
              (endpoints {| local_device := "B"; mapped_local_int := "eth1";
                            canonical_neighbor_name := "A";
                            mapped_neighbor_int := "eth2" |}).
Proof.
  apply (candidate_represented remove_dups ∅ [device_A; device_B]
           [report_of_A; report_of_B]
           ("B", "Ethernet1", {| hostname := "A"; port := "Ethernet2" |})).
  - right. left.
  - reflexivity.
Defined.

(** X16. When every peer name of the visited records matches at most one
    reachable device name, the synthesized links do not depend on the
    order in which the name set is iterated. *)
Theorem unambiguous_order_independent (order1 order2 : list string → list string)
    (unr : gset string) (devices : list Device) (data : LinksData) :
  enumerates order1 → enumerates order2 →
  (∀ r x y, r ∈ active_records unr data →
     x ∈ name <$> reachable_devices unr devices →
     y ∈ name <$> reachable_devices unr devices →
     name_matches (hostname r.2) x = true →
     name_matches (hostname r.2) y = true → x = y) →
  generate_links order1 unr devices data = generate_links order2 unr devices data.
Proof.
  intros H1 H2 Huniq. unfold generate_links. rewrite !process_devices_flat.
  f_equal. apply foldl_visit_ext. intros r Hr.
  apply candidate_link_resolve, resolve_neighbor_same_members.
  - intros x. unfold netbox_device_names. by rewrite (H1 _ x), (H2 _ x).
  - intros x y Hx Hy. unfold netbox_device_names in Hx, Hy.
    rewrite (H1 _ _) in Hx. rewrite (H1 _ _) in Hy. by apply Huniq.
Qed.

Lemma unambiguous_order_independent_witness :
  generate_links remove_dups ∅ [device_A; device_B] [report_of_A; report_of_B]
  = generate_links reverse ∅ [device_A; device_B] [report_of_A; report_of_B].
Proof.
  apply (unambiguous_order_independent remove_dups reverse ∅
           [device_A; device_B] [report_of_A; report_of_B]).
  - exact remove_dups_enumerates.
  - intros l x. apply elem_of_reverse.
  - intros r x y Hr Hx Hy.
    apply elem_of_cons in Hx as [->|Hx];
      [|apply list_elem_of_singleton in Hx; subst x];
    (apply elem_of_cons in Hy as [->|Hy];
      [|apply list_elem_of_singleton in Hy; subst y]);
    (apply elem_of_cons in Hr as [->|Hr];
      [|apply list_elem_of_singleton in Hr; subst r]);
    simpl; intros Hmx Hmy; try reflexivity; discriminate.
Defined.

(** X17. No dangling endpoints: when the keys of the neighbor map are
    device names and the name set is enumerated faithfully, both devices of
    every synthesized link are among the devices handed to the template. *)
Theorem no_dangling_endpoints (set_order : list string → list string)
    (unr : gset string) (devices : list Device) (data : LinksData)
    (site_name lab_dir : string) (l : Link) :
  enumerates set_order →
  (∀ k, k ∈ data.*1 → k ∈ name <$> devices) →
  l ∈ generate_links set_order unr devices data →
  local_device l
    ∈ name <$> topology_devices
                 (generate_topology_file set_order unr devices data site_name lab_dir)
  ∧ canonical_neighbor_name l
      ∈ name <$> topology_devices
                   (generate_topology_file set_order unr devices data site_name lab_dir).
Proof.
  intros Henum Hkeys (r & Hr & Hc)%generate_links_origin. simpl.
  apply candidate_link_Some in Hc as (Hres & _ & _ & HL & _).
  split.
  - rewrite HL. pose proof (active_records_elem _ _ _ Hr) as Hn.
    apply active_records_key, Hkeys, list_elem_of_fmap in Hr as (d & Hd & Hin).
    apply list_elem_of_fmap. exists d. split; [done|].
    unfold reachable_devices. apply list_elem_of_filter. by rewrite <- Hd.
  - apply resolve_neighbor_Some in Hres as [Hin _].
    unfold netbox_device_names in Hin. by rewrite (Henum _ _) in Hin.
Qed.

Lemma no_dangling_endpoints_witness :
  "A" ∈ name <$> topology_devices
                   (generate_topology_file remove_dups ∅ [device_A; device_B]
                      [report_of_A; report_of_B] "Site" "site")
  ∧ "B" ∈ name <$> topology_devices
                     (generate_topology_file remove_dups ∅ [device_A; device_B]
                        [report_of_A; report_of_B] "Site" "site").
Proof.
  apply (no_dangling_endpoints remove_dups ∅ [device_A; device_B]
           [report_of_A; report_of_B] "Site" "site"
           {| local_device := "A"; mapped_local_int := "eth2";
              canonical_neighbor_name := "B"; mapped_neighbor_int := "eth1" |}).
  - exact remove_dups_enumerates.
  - intros k Hk. exact Hk.
  - left.
Defined.


(** ** Paths of the harvested files *)
Section PathFacts.


Lemma append_empty_r (a : string) : a +:+ EmptyString = a.
Proof. induction a as [|x a IH]; [done|]. by rewrite append_cons, IH. Qed.











End PathFacts.




(** ** Completeness of the harvest *)
Section HarvestFacts.







End HarvestFacts.






(** X21. The cleanup program always runs to its end: whatever the destroy
    command and the removal of the lab directory do, nothing is raised,
    the removal step is reported after the destroy step, the last line is
    the completion message and the exit status is 0. When the topology file
    is missing, the destroy command is not run: its outcome changes
    nothing. *)
Theorem cleanup_always_completes (site_name : string) (file_exists : bool)
    (destroy : ToolRun) (is_dir : bool) (rmtree_error : option string) :
  Cleanup.cleanup_main site_name file_exists destroy is_dir rmtree_error
  = ((Cleanup.destroy_containerlab (Cleanup.topology_file site_name)
        file_exists destroy).1
     ++ (Cleanup.remove_generated_files (Cleanup.lab_dir site_name)
           is_dir rmtree_error).1
     ++ [newline +:+ "Cleanup complete."],
     Returned ())
  ∧ exit_status
      (Cleanup.cleanup_main site_name file_exists destroy is_dir rmtree_error).2
    = 0
  ∧ (file_exists = false →
       ∀ destroy', Cleanup.cleanup_main site_name file_exists destroy is_dir
                     rmtree_error
                   = Cleanup.cleanup_main site_name file_exists destroy' is_dir
                       rmtree_error).
Proof.
  assert (∀ f ex r, (Cleanup.destroy_containerlab f ex r).2 = Returned ()) as H1.
  { intros f ex r. unfold Cleanup.destroy_containerlab.
    destruct ex; simpl; [|done]. by destruct r. }
  assert (∀ l b r, (Cleanup.remove_generated_files l b r).2 = Returned ()) as H2.
  { intros l b r. unfold Cleanup.remove_generated_files. by destruct b, r. }
  assert (Cleanup.cleanup_main site_name file_exists destroy is_dir rmtree_error
          = ((Cleanup.destroy_containerlab (Cleanup.topology_file site_name)
                file_exists destroy).1
             ++ (Cleanup.remove_generated_files (Cleanup.lab_dir site_name)
                   is_dir rmtree_error).1
             ++ [newline +:+ "Cleanup complete."],
             Returned ())) as Hm.
  { unfold Cleanup.cleanup_main. by rewrite H1, H2. }
  split; [done|]. split; [by rewrite Hm|].
  intros -> destroy'. unfold Cleanup.cleanup_main, Cleanup.destroy_containerlab.
  done.
Qed.

Lemma cleanup_always_completes_witness :
  Cleanup.cleanup_main "Site" false ToolMissing true None
  = Cleanup.cleanup_main "Site" false Completed true None.
Proof.
  apply (proj2 (proj2 (cleanup_always_completes "Site" false ToolMissing true None))).
  reflexivity.
Defined.
